(** * A shallow embedding of [proxy.c], the tiny caching HTTP proxy

    The embedding follows the C source function by function:
    [clienterror], [build_http_request], [doit], [thread] and the accept
    loop of [main].  Text is modelled as [string] (the source itself
    "assume[s] that the request and header lines are ASCII text"), sizes
    ([size_t], [ssize_t]) as [Z].  Everything the source reaches through
    [csapp.h], [http_parser.h] and [cache.h] is outside [proxy.c]: the
    buffer sizes, the request-line parser, the cache and the sockets are
    fields of an environment record, and what the handler does to the
    outside world is recorded as a chronological trace of events.
    A line read from a socket may hold NUL bytes: where the source uses
    the array it was read into as a C string, the model cuts it at the
    first NUL ([c_str]).
    Memory management ([parser_new], [parser_free], [malloc], [free]) and
    [pthread_detach] leave no event; an access outside an array and a
    [sprintf] conversion without argument are undefined behaviour and
    end a run without a result. *)

From Stdlib Require Import ZArith List String Ascii Bool Lia DecimalString.
From Stdlib Require DecimalN DecimalPos.
Import ListNotations.

Local Open Scope string_scope.
Local Open Scope Z_scope.

(** ** The C library functions used by [proxy.c] *)

Module Libc.

Definition CR : ascii := "013"%char.
Definition LF : ascii := "010"%char.
(** The two bytes written [\r\n] in the source. *)
Definition CRLF : string := String CR (String LF EmptyString).
(** The byte written [\n] in the source. *)
Definition NL : string := String LF EmptyString.
(** The double-quote byte, written backslash-quote in the source. *)
Definition DQUOTE : string := String "034"%char EmptyString.

Fixpoint strlen (s : string) : Z :=
  match s with
  | EmptyString => 0
  | String _ r => 1 + strlen r
  end.

(** A [char] array read as a C string: the bytes before the first NUL.
    [strlen] below is the length of such a string, and the number of
    bytes of a block read from a socket. *)
Fixpoint c_str (bytes : string) : string :=
  match bytes with
  | EmptyString => EmptyString
  | String c r =>
      if Ascii.eqb c "000"%char then EmptyString else String c (c_str r)
  end.

Definition code (c : ascii) : Z := Z.of_N (N_of_ascii c).

Definition tolower (c : ascii) : ascii :=
  if (65 <=? code c) && (code c <=? 90)
  then ascii_of_N (N_of_ascii c + 32)
  else c.

Fixpoint smap (f : ascii -> ascii) (s : string) : string :=
  match s with
  | EmptyString => EmptyString
  | String c r => String (f c) (smap f r)
  end.

Definition lower : string -> string := smap tolower.

(** [strcmp] and [strcasecmp] share one loop; [fold] is the identity or
    [tolower].  Only the sign of the result is specified by C, and a C
    string holds no NUL, so a proper prefix compares as [-1] / [1]. *)
Fixpoint compare_by (fold : ascii -> ascii) (s1 s2 : string) : Z :=
  match s1, s2 with
  | EmptyString, EmptyString => 0
  | EmptyString, String _ _ => -1
  | String _ _, EmptyString => 1
  | String c1 r1, String c2 r2 =>
      if Ascii.eqb (fold c1) (fold c2)
      then compare_by fold r1 r2
      else code (fold c1) - code (fold c2)
  end.

Definition strcmp : string -> string -> Z := compare_by (fun c => c).
Definition strcasecmp : string -> string -> Z := compare_by tolower.

(** [strncasecmp s1 s2 n] looks at the first [n] bytes of each string. *)
Definition strncasecmp (s1 s2 : string) (n : nat) : Z :=
  strcasecmp (substring 0 n s1) (substring 0 n s2).

(** [snprintf (buf, size, ...)] where the formatted text is [text]: the
    buffer receives at most [size - 1] bytes, the return value is the
    length the whole text has. *)
Definition snprintf (size : Z) (text : string) : string * Z :=
  (substring 0 (Z.to_nat (size - 1)) text, strlen text).

(** The [%zu] conversion of a [size_t]. *)
Definition zu (n : Z) : string := NilZero.string_of_uint (N.to_uint (Z.to_N n)).

(** [sprintf (buf, fmt)] called with a format and no argument, as
    [build_http_request] does with a client line: [%%] prints one [%],
    any other conversion reads an argument that was never passed, which
    is undefined ([None]). *)
Fixpoint format_noargs (fmt : string) : option string :=
  match fmt with
  | EmptyString => Some EmptyString
  | String c r =>
      if Ascii.eqb c "%"%char then
        match r with
        | String c' r' =>
            if Ascii.eqb c' "%"%char
            then option_map (String "%"%char) (format_noargs r')
            else None
        | EmptyString => None
        end
      else option_map (String c) (format_noargs r)
  end.

(** Storing a C string into a [char [cap]] array: defined only when the
    text and its terminating NUL fit. *)
Definition store (cap : Z) (text : string) : option string :=
  if strlen text <? cap then Some text else None.

End Libc.
Import Libc.

(** ** The outside world of one connection *)

(** What [parser_retrieve] hands out after a request line was parsed:
    six C strings ([const char *]). *)
Record parsed_request := {
  method : string;
  version : string;
  uri : string;
  host : string;
  port : string;
  path : string
}.

(** Modelled from the spec: the Request Parser of [http_parser.h], whose
    code is not part of [proxy.c]: "parse(requestLine) -> {method, version,
    host, port, path, uri} | parseError".  [ERROR] is the state the source
    tests for. *)
Inductive parser_state :=
| ERROR
| REQUEST (p : parsed_request).

(** Result of one [rio_readlineb] / [rio_readnb] call: the bytes read,
    NUL bytes among them if the peer sent any (the return value is their
    number, at least one), end of file (the
    call returns 0 and leaves the buffer alone) or failure (-1). *)
Inductive rio_result :=
| RioData (bytes : string)
| RioEOF
| RioError.

(** The observable actions of the proxy, one constructor per call site
    kind; [fd] is the client descriptor, [serverfd] the origin's. *)
Inductive event :=
| ClientWrite (bytes : string)                 (* rio_writen (fd, ...) *)
| CacheLookup (key : string)                   (* read_cache (uri, fd) *)
| CacheInsert (key bytes : string) (size : Z)  (* write_cache (uri, response, size) *)
| OriginConnect (h p : string)                 (* open_clientfd (host, port) *)
| OriginWrite (bytes : string)                 (* rio_writen (serverfd, ...) *)
| OriginRead (bytes : string)                  (* rio_readnb (&server_rio, ...) > 0 *)
| Stderr (msg : string)                        (* fprintf (stderr, ...) *)
| CloseOrigin                                  (* close (serverfd) *)
| CloseClient.                                 (* close (connfd) *)

(** Constants and collaborators that [proxy.c] takes from its headers. *)
Record env := {
  (** [csapp.h] *)
  MAXLINE : Z;
  MAXBUF : Z;
  (** [cache.h] *)
  MAX_OBJECT_SIZE : Z;
  (** [http_parser.h]: [parser_parse_line] followed by [parser_retrieve]. *)
  parser_parse_line : string -> parser_state;
  (** [cache.h]: [read_cache (uri, fd)] returns an [ssize_t] and may have
      written bytes to the client on its own. *)
  read_cache : string -> Z * option string;
  (** [csapp.h]: the descriptor [open_clientfd] returns, negative on failure. *)
  open_clientfd : string -> string -> Z;
  (** What the uninitialised arrays [buf] of [doit] and [other_header] of
      [build_http_request] happen to hold; the code reads both as C
      strings. *)
  stack_buf : string;
  stack_other_header : string
}.

(** The script of one connection and the trace so far.  A read past the
    end of a script is end of file; a write past the end of [client_wr]
    succeeds. *)
Record state := {
  client_in : list rio_result;   (* results of rio_readlineb on the client *)
  client_wr : list Z;            (* results of rio_writen on the client *)
  origin_in : list rio_result;   (* results of rio_readnb on the origin *)
  trace : list event
}.

(** ** A state monad with undefined behaviour *)

(** [None] stands for undefined behaviour of the C program (a write past
    the end of an array, a conversion without its argument). *)
Definition io (A : Type) : Type := state -> option (A * state).

Definition ret {A : Type} (a : A) : io A := fun s => Some (a, s).

Definition bind {A B : Type} (m : io A) (k : A -> io B) : io B :=
  fun s => match m s with
           | Some (a, s') => k a s'
           | None => None
           end.

Definition lift {A : Type} (o : option A) : io A :=
  fun s => match o with Some a => Some (a, s) | None => None end.

Declare Scope io_scope.
Delimit Scope io_scope with io.
Notation "x <- m ;; k" := (bind m (fun x => k))
  (at level 61, m at next level, right associativity) : io_scope.
Notation "' pat <- m ;; k" := (bind m (fun x => match x with pat => k end))
  (at level 61, pat pattern, m at next level, right associativity) : io_scope.
Notation "m ;;; k" := (bind m (fun _ => k))
  (at level 61, right associativity) : io_scope.
Local Open Scope io_scope.

Definition emit (e : event) : io unit :=
  fun s => Some (tt, {| client_in := client_in s; client_wr := client_wr s;
                        origin_in := origin_in s; trace := trace s ++ [e] |}).

(** [rio_readlineb (&client_rio, buf, MAXLINE)] *)
Definition rio_readlineb : io rio_result :=
  fun s => match client_in s with
           | [] => Some (RioEOF, s)
           | r :: rest =>
               Some (r, {| client_in := rest; client_wr := client_wr s;
                           origin_in := origin_in s; trace := trace s |})
           end.

(** [rio_readnb (&server_rio, buf, MAXLINE)] *)
Definition rio_readnb : io rio_result :=
  fun s => match origin_in s with
           | [] => Some (RioEOF, s)
           | r :: rest =>
               Some (r, {| client_in := client_in s; client_wr := client_wr s;
                           origin_in := rest; trace := trace s |})
           end.

(** [rio_writen (fd, bytes, n)] on the client descriptor. *)
Definition rio_writen_client (bytes : string) : io Z :=
  fun s => match client_wr s with
           | [] =>
               Some (strlen bytes,
                     {| client_in := client_in s; client_wr := [];
                        origin_in := origin_in s;
                        trace := trace s ++ [ClientWrite bytes] |})
           | r :: rest =>
               Some (r, {| client_in := client_in s; client_wr := rest;
                           origin_in := origin_in s;
                           trace := trace s ++ [ClientWrite bytes] |})
           end.

(** ** The functions of [proxy.c] *)

Section Proxy.

Variable E : env.

Definition header_user_agent : string :=
  "User-Agent: Mozilla/5.0" ++ " (X11; Linux x86_64; rv:3.10.0)"
  ++ " Gecko/20191101 Firefox/63.0.1" ++ CRLF.
Definition header_connection : string := "Connection: close" ++ CRLF.
Definition header_proxy_connection : string := "Proxy-Connection: close" ++ CRLF.

(** The body format of [clienterror] with its four [%s] filled in. *)
Definition error_body (cause errnum shortmsg longmsg : string) : string :=
  "<html>" ++ CRLF
  ++ "<head><title>Tiny Error</title></head>" ++ CRLF
  ++ "<body bgcolor=" ++ DQUOTE ++ "ffffff" ++ DQUOTE ++ ">" ++ CRLF
  ++ "<h1>" ++ errnum ++ ": " ++ shortmsg ++ "</h1>" ++ CRLF
  ++ "<p>" ++ longmsg ++ ": " ++ cause ++ "</p>" ++ CRLF
  ++ "<hr><em>The Tiny Web server</em>" ++ CRLF
  ++ "</body></html>" ++ CRLF.

(** The header format of [clienterror] with [%s %s %zu] filled in. *)
Definition error_headers (errnum shortmsg : string) (bodylen : Z) : string :=
  "HTTP/1.0 " ++ errnum ++ " " ++ shortmsg ++ CRLF
  ++ "Content-Type: text/html" ++ CRLF
  ++ "Content-Length: " ++ zu bodylen ++ CRLF ++ CRLF.

Definition clienterror (cause errnum shortmsg longmsg : string) : io unit :=
  (* Build the HTTP response body *)
  let '(body, bodylen) :=
    snprintf (MAXBUF E) (error_body cause errnum shortmsg longmsg) in
  if bodylen >=? MAXBUF E then ret tt (* Overflow! *) else
  (* Build the HTTP response headers *)
  let '(buf, buflen) :=
    snprintf (MAXLINE E) (error_headers errnum shortmsg bodylen) in
  if buflen >=? MAXLINE E then ret tt (* Overflow! *) else
  (* Write the headers *)
  w <- rio_writen_client buf ;;
  if w <? 0
  then emit (Stderr ("Error writing error response headers to client" ++ NL))
  else
    (* Write the body *)
    w' <- rio_writen_client body ;;
    if w' <? 0
    then emit (Stderr ("Error writing error response body to client" ++ NL))
    else ret tt.

(** The [while] loop of [build_http_request] over the lines the client
    still sends; it returns the lines left unread, [header_host] and
    [other_header]. *)
Fixpoint header_loop (lines : list rio_result) (header_host other_header : string)
  : option (list rio_result * string * string) :=
  match lines with
  | [] => Some ([], header_host, other_header)
  | RioData bytes :: rest =>
      if strlen bytes >? 0 then
        (* strcmp, strncasecmp, sprintf and strcat read buf as a C string *)
        let buf := c_str bytes in
        if strcmp buf CRLF =? 0 then Some (rest, header_host, other_header)
        else
          (* if client attaches its own HOST header, use the same as client *)
          if strncasecmp buf "Host" (length "Host") =? 0 then
            match format_noargs buf with
            | Some text =>
                match store (MAXLINE E) text with
                | Some header_host' => header_loop rest header_host' other_header
                | None => None
                end
            | None => None
            end
          else
            (* if client sends additional request headers, forward them unchanged *)
            if negb (strncasecmp buf "User-Agent" (length "User-Agent") =? 0)
               && negb (strncasecmp buf "Connection" (length "Connection") =? 0)
               && negb (strncasecmp buf "Proxy-Connection" (length "Proxy-Connection") =? 0)
            then
              match store (MAXLINE E) (other_header ++ buf) with
              | Some other_header' => header_loop rest header_host other_header'
              | None => None
              end
            else header_loop rest header_host other_header
      else Some (rest, header_host, other_header)
  | _ :: rest => Some (rest, header_host, other_header)
  end.

(** [build_http_request (rio, request_line, header_host, http_request)];
    the value returned is what the call leaves in [http_request]. *)
Definition build_http_request (request_line header_host : string) : io string :=
  fun s =>
    match header_loop (client_in s) header_host (c_str (stack_other_header E)) with
    | Some (rest, header_host', other_header) =>
        match store (MAXLINE E)
                (request_line ++ header_host' ++ header_user_agent
                 ++ header_connection ++ header_proxy_connection
                 ++ other_header ++ CRLF) with
        | Some http_request =>
            Some (http_request,
                  {| client_in := rest; client_wr := client_wr s;
                     origin_in := origin_in s; trace := trace s |})
        | None => None
        end
    | None => None
    end.

(** The [while] loop of [doit] over the chunks the origin still sends;
    [response] is what [memcpy] has stored so far. *)
Fixpoint relay_loop (chunks : list rio_result) (response : string) (response_size : Z)
  : io (list rio_result * string * Z) :=
  match chunks with
  | [] => ret ([], response, response_size)
  | RioData buf :: rest =>
      if strlen buf >? 0 then
        emit (OriginRead buf) ;;;
        _ <- rio_writen_client buf ;;
        (* store the web server's response if maximum object size is not
           exceeded *)
        let response_size' := response_size + strlen buf in
        if response_size' <? MAX_OBJECT_SIZE E
        then relay_loop rest (response ++ buf) response_size'
        else relay_loop rest response response_size'
      else ret (rest, response, response_size)
  | _ :: rest => ret (rest, response, response_size)
  end.

Definition relay : io (string * Z) :=
  fun s =>
    match relay_loop (origin_in s) EmptyString 0 s with
    | Some ((rest, response, response_size), s') =>
        Some ((response, response_size),
              {| client_in := client_in s'; client_wr := client_wr s';
                 origin_in := rest; trace := trace s' |})
    | None => None
    end.

Definition doit : io unit :=
  (* read request line *)
  r <- rio_readlineb ;;
  (* the parser and clienterror read buf as a C string *)
  let buf := c_str (match r with RioData line => line | _ => stack_buf E end) in
  match parser_parse_line E buf with
  | ERROR =>
      clienterror buf "400" "Bad Request"
        "Tiny could not handle this request (ERROR)"
  | REQUEST p =>
      if negb (strcasecmp (method p) "GET" =? 0) then
        clienterror buf "501" "Not implemented"
          "Tiny does not implement this method"
      else if negb (strncasecmp (version p) "1.0" (length "1.0") =? 0)
              && negb (strncasecmp (version p) "1.1" (length "1.1") =? 0) then
        clienterror buf "400" "Bad Request"
          "Tiny could not handle this request (HTTP_VERSION)"
      else
        (* retrieve cache and if the URI is in the cache, respond to client
           directly *)
        emit (CacheLookup (uri p)) ;;;
        let '(n, written) := read_cache E (uri p) in
        match written with
        | Some bytes => emit (ClientWrite bytes)
        | None => ret tt
        end ;;;
        if n >? 0 then ret tt else
        (* not in the cache, build http request forwarded to web server *)
        request_line <- lift (store (MAXLINE E) ("GET " ++ path p ++ " HTTP/1.0" ++ CRLF)) ;;
        header_host <- lift (store (MAXLINE E) ("Host: " ++ host p ++ ":" ++ port p ++ CRLF)) ;;
        http_request <- build_http_request request_line header_host ;;
        (* establish connection to the web server *)
        emit (OriginConnect (host p) (port p)) ;;;
        let serverfd := open_clientfd E (host p) (port p) in
        if serverfd <? 0 then emit (Stderr ("Connection failed" ++ NL)) else
        (* request the object the client specified *)
        emit (OriginWrite http_request) ;;;
        (* read the server's response and forward it to the client *)
        '(response, response_size) <- relay ;;
        (* write the web object into cache *)
        (if response_size <? MAX_OBJECT_SIZE E
         then emit (CacheInsert (uri p) response response_size)
         else ret tt) ;;;
        emit CloseOrigin
  end.

(** The thread routine: [doit (connfd); close (connfd)]. *)
Definition thread : io unit :=
  doit ;;; emit CloseClient.

End Proxy.

(** ** The dispatcher: [main] and its accept loop *)

(** What one [accept] call (and the [getnameinfo] after it) gives:
    the descriptor, negative on failure, and the peer's name. *)
Record accepted := {
  connfd : Z;
  peer_host : string;
  peer_port : string
}.

Inductive main_event :=
| MainStderr (msg : string)     (* fprintf (stderr, ...) *)
| IgnoreSigpipe                 (* signal (SIGPIPE, SIG_IGN) *)
| InitCache                     (* init_cache () *)
| Accept                        (* accept (listenfd, ...) *)
| Perror (msg : string)         (* perror (...) *)
| Stdout (msg : string)         (* sio_printf (...) *)
| PthreadCreate (fd : Z)        (* pthread_create (&tid, NULL, thread, connfdp) *)
| FreeCache.                    (* free_cache () *)

(** How a loop body hands control back to its [while]. *)
Inductive control := Continue | Break.

(** [Exit status]: the process ended; [Serving]: the script of
    connections ran out with [main] still inside [while (1)]. *)
Inductive main_result :=
| Exit (status : Z)
| Serving.

(** One pass through the body of [while (1)]; [malloc] is taken to
    succeed. *)
Definition accept_iteration (a : accepted) : list main_event * control :=
  if connfd a <? 0 then
    ([Accept; Perror "accept error"], Continue)
  else
    ([Accept;
      Stdout ("Accepted connection from (" ++ peer_host a ++ ", "
              ++ peer_port a ++ ")" ++ NL);
      PthreadCreate (connfd a)], Continue).

Fixpoint accept_loop (script : list accepted) : list main_event * main_result :=
  match script with
  | [] => ([], Serving)
  | a :: rest =>
      match accept_iteration a with
      | (evs, Continue) =>
          let '(evs', r) := accept_loop rest in ((evs ++ evs')%list, r)
      | (evs, Break) => ((evs ++ [FreeCache])%list, Exit 0)
      end
  end.

(** [main (argc, argv)]; [listenfd] is what [open_listenfd (argv[1])]
    returns. *)
Definition main (argv : list string) (listenfd : Z) (script : list accepted)
  : list main_event * main_result :=
  match argv with
  | [_; port_arg] =>
      if listenfd <? 0 then
        ([IgnoreSigpipe; InitCache;
          MainStderr ("Failed to listen on port: " ++ port_arg ++ NL)], Exit 1)
      else
        let '(evs, r) := accept_loop script in
        (IgnoreSigpipe :: InitCache :: evs, r)
  | _ =>
      ([MainStderr ("usage: " ++ nth 0 argv EmptyString ++ " <port>" ++ NL)], Exit 1)
  end.

(** ** Vocabulary of the statements *)

(** Concatenation of a list of lines or chunks. *)
Definition join (ls : list string) : string :=
  fold_right String.append EmptyString ls.

(** [line] begins with [name], letter case ignored. *)
Definition begins_with (name line : string) : bool :=
  String.eqb (lower (substring 0 (String.length name) line)) (lower name).

(** The header lines the proxy supplies itself and drops from the
    client's. *)
Definition reserved (line : string) : bool :=
  begins_with "User-Agent" line
  || begins_with "Connection" line
  || begins_with "Proxy-Connection" line.

(** The client lines that reach the origin, in their order. *)
Definition forwarded (hs : list string) : list string :=
  filter (fun h => negb (begins_with "Host" h) && negb (reserved h)) hs.

(** The Host line of the forwarded request: the last client line that
    begins with Host, [built] when there is none. *)
Definition host_header (built : string) (hs : list string) : string :=
  last (filter (begins_with "Host") hs) built.

Fixpoint no_percent (s : string) : bool :=
  match s with
  | EmptyString => true
  | String c r => negb (Ascii.eqb c "%"%char) && no_percent r
  end.

(** The bytes hold no NUL: as a C string they are read whole. *)
Definition nul_free (bytes : string) : Prop := c_str bytes = bytes.

(** A request header line as [rio_readlineb (rio, buf, MAXLINE)] returns
    it inside the loop of [build_http_request]: not empty, not the blank
    line, shorter than the buffer, and text without a NUL byte. *)
Definition header_line (E : env) (h : string) : Prop :=
  0 < strlen h /\ h <> CRLF /\ strlen h < MAXLINE E /\ nul_free h.

(** What ends the header loop: end of file, a failed read, or the blank
    line. *)
Definition header_end (tail : list rio_result) : Prop :=
  match tail with
  | RioData b :: _ => b = CRLF \/ b = EmptyString
  | _ => True
  end.

(** What ends the relay loop: end of file or a failed read. *)
Definition read_end (tail : list rio_result) : Prop :=
  match tail with
  | RioData b :: _ => b = EmptyString
  | _ => True
  end.

(** All bytes the proxy wrote to the client, in order. *)
Fixpoint client_output (tr : list event) : string :=
  match tr with
  | [] => EmptyString
  | ClientWrite bytes :: tr' => bytes ++ client_output tr'
  | _ :: tr' => client_output tr'
  end.

(** The event touches neither the cache nor an origin server. *)
Definition client_only (e : event) : bool :=
  match e with
  | ClientWrite _ | Stderr _ | CloseClient => true
  | _ => false
  end.

(** The three ways [doit] turns a request line down, with the arguments
    it passes to [clienterror]. *)
Inductive rejected (E : env) (line : string) : string -> string -> string -> Prop :=
| rejected_parse :
    parser_parse_line E line = ERROR ->
    rejected E line "400" "Bad Request"
      "Tiny could not handle this request (ERROR)"
| rejected_method (p : parsed_request) :
    parser_parse_line E line = REQUEST p ->
    strcasecmp (method p) "GET" <> 0 ->
    rejected E line "501" "Not implemented"
      "Tiny does not implement this method"
| rejected_version (p : parsed_request) :
    parser_parse_line E line = REQUEST p ->
    strcasecmp (method p) "GET" = 0 ->
    begins_with "1.0" (version p) = false ->
    begins_with "1.1" (version p) = false ->
    rejected E line "400" "Bad Request"
      "Tiny could not handle this request (HTTP_VERSION)".

(** A request line [doit] takes on: the method is GET, letter case
    ignored, and the version begins with 1.0 or 1.1. *)
Definition valid_get (p : parsed_request) : Prop :=
  lower (method p) = lower "GET"
  /\ (begins_with "1.0" (version p) = true \/ begins_with "1.1" (version p) = true).

(** The request text: the request line, the Host line, the three fixed
    headers, the forwarded lines, the blank line. *)
Definition request_text (request_line host_line : string) (hs : list string) : string :=
  request_line ++ host_line ++ header_user_agent ++ header_connection
  ++ header_proxy_connection ++ join hs ++ CRLF.

(** What the loop does with one chunk: read it, write it to the client. *)
Definition relay_events (chunks : list string) : list event :=
  flat_map (fun c => [OriginRead c; ClientWrite c]) chunks.

(** The request line and the Host line [doit] builds with [sprintf]. *)
Definition request_line_of (p : parsed_request) : string :=
  "GET " ++ path p ++ " HTTP/1.0" ++ CRLF.

Definition built_host (p : parsed_request) : string :=
  "Host: " ++ host p ++ ":" ++ port p ++ CRLF.

(** The request [build_http_request] leaves in [http_request] when the
    client sent the header lines [hs]: [strcat] appends the forwarded
    lines to whatever [other_header] held. *)
Definition forwarded_request (E : env) (p : parsed_request) (hs : list string)
  : string :=
  request_text (request_line_of p) (host_header (built_host p) hs)
    (c_str (stack_other_header E) :: forwarded hs).

(** The conditions under which building the forwarded request stays
    inside the arrays of [doit] and [build_http_request] and inside
    defined behaviour: every header line is one [rio_readlineb] can
    return, a line used as [sprintf] format has no conversion, and the
    three texts fit [MAXLINE]. *)
Definition forwardable (E : env) (p : parsed_request) (hs : list string) : Prop :=
  Forall (header_line E) hs
  /\ Forall (fun h => begins_with "Host" h = true -> no_percent h = true) hs
  /\ strlen (request_line_of p) < MAXLINE E
  /\ strlen (built_host p) < MAXLINE E
  /\ strlen (forwarded_request E p hs) < MAXLINE E.

(** Modelled from the spec: the object cache ([cache.c] is not among the
    sources), a store of entries, each a key and a body, the size of an
    entry being the byte length of its body. *)
Definition cache : Type := list (string * string).



(** What [read_cache] itself wrote to the client. *)
Definition written_events (written : option string) : list event :=
  match written with
  | Some bytes => [ClientWrite bytes]
  | None => []
  end.

(** The [write_cache] call after the relay loop. *)
Definition insert_events (E : env) (p : parsed_request) (chunks : list string)
  : list event :=
  if strlen (join chunks) <? MAX_OBJECT_SIZE E
  then [CacheInsert (uri p) (join chunks) (strlen (join chunks))]
  else [].

(** A cache miss with a reachable origin: the client sends the request
    line [line], parsed (as a C string) as the valid GET [p], then the
    header lines [hs] and what ends them; [read_cache] returns nothing
    positive; the origin accepts the connection and answers with the
    non-empty [chunks] before its reads end. *)
Record cache_miss (E : env) (s : state) (line : string) (p : parsed_request)
       (hs : list string) (tail : list rio_result) (written : option string)
       (chunks : list string) (otail : list rio_result) : Prop := {
  miss_client : client_in s = RioData line :: (map RioData hs ++ tail)%list;
  miss_parsed : parser_parse_line E (c_str line) = REQUEST p;
  miss_valid : valid_get p;
  miss_lookup : exists n, read_cache E (uri p) = (n, written) /\ n <= 0;
  miss_headers_end : header_end tail;
  miss_forwardable : forwardable E p hs;
  miss_connected : 0 <= open_clientfd E (host p) (port p);
  miss_origin : origin_in s = (map RioData chunks ++ otail)%list;
  miss_chunks : Forall (fun c => 0 < strlen c) chunks;
  miss_origin_end : read_end otail
}.


(** ** Sample connections *)

(** The buffer sizes of the CS:APP header ([MAXLINE] and [MAXBUF] are
    8192 there) and the 100 KiB object limit of the proxy lab; the origin
    is reachable and both uninitialised arrays start out empty. *)
Definition sample_env (parse : string -> parser_state)
           (cache : string -> Z * option string) : env :=
  {| MAXLINE := 8192; MAXBUF := 8192; MAX_OBJECT_SIZE := 102400;
     parser_parse_line := parse; read_cache := cache;
     open_clientfd := fun _ _ => 4;
     stack_buf := EmptyString; stack_other_header := EmptyString |}.

Definition empty_cache (key : string) : Z * option string := (0, None).

(** A connection on which the client sends [lines] and the origin
    answers with [chunks]. *)
Definition connection (lines chunks : list string) : state :=
  {| client_in := map RioData lines; client_wr := [];
     origin_in := map RioData chunks; trace := [] |}.

Fixpoint replicate (n : nat) (c : ascii) : string :=
  match n with
  | O => EmptyString
  | S k => String c (replicate k c)
  end.

Definition sample_line : string := "GET http://example.com/ HTTP/1.1" ++ CRLF.

Definition sample_request : parsed_request :=
  {| method := "GET"; version := "1.1"; uri := "example.com:80/";
     host := "example.com"; port := "80"; path := "/" |}.

Definition sample_response : list string :=
  ["HTTP/1.0 200 OK" ++ CRLF ++ "Content-Length: 5" ++ CRLF ++ CRLF; "hello"].

Definition sample_post : parsed_request :=
  {| method := "POST"; version := "1.1"; uri := "example.com:80/";
     host := "example.com"; port := "80"; path := "/" |}.

Definition sample_http2 : parsed_request :=
  {| method := "GET"; version := "2.0"; uri := "example.com:80/";
     host := "example.com"; port := "80"; path := "/" |}.

(** The method in lower case; a version that only begins with 1.1. *)
Definition sample_lowercase : parsed_request :=
  {| method := "get"; version := "1.1"; uri := "example.com:80/";
     host := "example.com"; port := "80"; path := "/" |}.

Definition sample_http110 : parsed_request :=
  {| method := "GET"; version := "1.10"; uri := "example.com:80/";
     host := "example.com"; port := "80"; path := "/" |}.

(** What a run of scenario A records, from the cache lookup to the close. *)
Definition scenario_a_trace : list event :=
  ([CacheLookup "example.com:80/";
    OriginConnect "example.com" "80";
    OriginWrite
      (("GET / HTTP/1.0" ++ CRLF) ++ ("Host: example.com" ++ CRLF)
       ++ header_user_agent ++ header_connection ++ header_proxy_connection
       ++ CRLF)]
   ++ relay_events sample_response
   ++ [CacheInsert "example.com:80/" (join sample_response)
         (strlen (join sample_response));
       CloseOrigin; CloseClient])%list.

(** A chunk as large as one [rio_readnb (&server_rio, buf, MAXLINE)] can
    return, and half of one. *)
Definition full_chunk : string := replicate (64 * 128) "x".
Definition half_chunk : string := replicate (64 * 64) "x".

(** An origin response of 106496 bytes, above the object limit, and one
    of exactly 102400 bytes. *)
Definition oversized_response : list string := repeat full_chunk 13.
Definition exact_cap_response : list string :=
  (repeat full_chunk 12 ++ [half_chunk])%list.

(** Request lines of 8100 and more bytes, still shorter than [MAXLINE]. *)
Definition long_path : string := "/" ++ replicate (90 * 90) "a".

Definition long_garbage : string := replicate (90 * 90) "a" ++ CRLF.

Definition long_post_line : string :=
  "POST http://example.com" ++ long_path ++ " HTTP/1.1" ++ CRLF.

Definition long_post : parsed_request :=
  {| method := "POST"; version := "1.1"; uri := "example.com:80" ++ long_path;
     host := "example.com"; port := "80"; path := long_path |}.

Definition long_get_line : string :=
  "GET http://example.com" ++ long_path ++ " HTTP/2.0" ++ CRLF.

Definition long_get : parsed_request :=
  {| method := "GET"; version := "2.0"; uri := "example.com:80" ++ long_path;
     host := "example.com"; port := "80"; path := long_path |}.

(** ** Vocabulary of the further properties *)

(** What [sprintf (header_host, buf)] prints for the line [h]. *)
Definition printed (h : string) : string :=
  match format_noargs h with
  | Some text => text
  | None => h
  end.

(** The Host line of the request when every client line beginning with
    Host went through [sprintf] as the format. *)
Definition printed_host (built : string) (hs : list string) : string :=
  last (map printed (filter (begins_with "Host") hs)) built.

(** The first [rio_readlineb] of [doit] delivers no line: end of file or
    a failed read. *)
Definition no_request_line (s : state) : Prop :=
  match client_in s with
  | RioData _ :: _ => False
  | _ => True
  end.

(** A cache miss up to the point where [doit] calls [open_clientfd]. *)
Record request_built (E : env) (s : state) (line : string) (p : parsed_request)
       (hs : list string) (tail : list rio_result) (written : option string)
  : Prop := {
  built_client : client_in s = RioData line :: (map RioData hs ++ tail)%list;
  built_parsed : parser_parse_line E (c_str line) = REQUEST p;
  built_valid : valid_get p;
  built_lookup : exists n, read_cache E (uri p) = (n, written) /\ n <= 0;
  built_headers_end : header_end tail;
  built_forwardable : forwardable E p hs
}.

(** The descriptors handed to [pthread_create], in order. *)
Fixpoint threads_of (evs : list main_event) : list Z :=
  match evs with
  | [] => []
  | PthreadCreate fd :: evs' => fd :: threads_of evs'
  | _ :: evs' => threads_of evs'
  end.

(** The state [s] with another script of write results. *)
Definition with_client_wr (wr : list Z) (s : state) : state :=
  {| client_in := client_in s; client_wr := wr;
     origin_in := origin_in s; trace := trace s |}.

(** A header line of 8109 bytes, one [rio_readlineb] can still return. *)
Definition long_header : string := "X-Pad: " ++ replicate (90 * 90) "a" ++ CRLF.

(** An environment as [sample_env] where the array [other_header] of
    [build_http_request] happens to hold [leftover]. *)
Definition dirty_env (leftover : string) : env :=
  {| MAXLINE := 8192; MAXBUF := 8192; MAX_OBJECT_SIZE := 102400;
     parser_parse_line := fun _ => REQUEST sample_request;
     read_cache := empty_cache;
     open_clientfd := fun _ _ => 4;
     stack_buf := EmptyString; stack_other_header := leftover |}.

(** An environment as [sample_env] whose origin cannot be reached. *)
Definition unreachable_env (parse : string -> parser_state) : env :=
  {| MAXLINE := 8192; MAXBUF := 8192; MAX_OBJECT_SIZE := 102400;
     parser_parse_line := parse; read_cache := empty_cache;
     open_clientfd := fun _ _ => -1;
     stack_buf := EmptyString; stack_other_header := EmptyString |}.

(** An environment as [sample_env] where the array [buf] of [doit]
    happens to hold [leftover]. *)
Definition leftover_env (leftover : string) : env :=
  {| MAXLINE := 8192; MAXBUF := 8192; MAX_OBJECT_SIZE := 102400;
     parser_parse_line := fun _ => ERROR; read_cache := empty_cache;
     open_clientfd := fun _ _ => 4;
     stack_buf := leftover; stack_other_header := EmptyString |}.

(** ** Facts about the C library model *)

Lemma append_assoc (a b c : string) : (a ++ b) ++ c = a ++ (b ++ c).
Proof. induction a as [|x a IH]; simpl; [reflexivity | now rewrite IH]. Qed.

Lemma append_nil_r (a : string) : a ++ EmptyString = a.
Proof. induction a as [|x a IH]; simpl; [reflexivity | now rewrite IH]. Qed.

Lemma strlen_nonneg (s : string) : 0 <= strlen s.
Proof. induction s as [|c s IH]; cbn [strlen]; lia. Qed.

Lemma strlen_app (a b : string) : strlen (a ++ b) = strlen a + strlen b.
Proof.
  induction a as [|x a IH]; cbn [strlen String.append]; [reflexivity | rewrite IH; lia].
Qed.

Lemma code_inj (a b : ascii) : code a = code b -> a = b.
Proof.
  unfold code. intros H. apply N2Z.inj in H.
  rewrite <- (ascii_N_embedding a), <- (ascii_N_embedding b). now rewrite H.
Qed.

Lemma compare_by_zero (f : ascii -> ascii) (s1 s2 : string) :
  compare_by f s1 s2 = 0 <-> smap f s1 = smap f s2.
Proof.
  revert s2. induction s1 as [|c1 r1 IH]; intros [|c2 r2]; simpl.
  - tauto.
  - split; [lia | discriminate].
  - split; [lia | discriminate].
  - destruct (Ascii.eqb_spec (f c1) (f c2)) as [e|ne].
    + rewrite IH, e. split; [intros ->; reflexivity | now injection 1].
    + split.
      * intros H. exfalso. apply ne, code_inj. lia.
      * injection 1. intros _ H'. contradiction.
Qed.

Lemma smap_id (s : string) : smap (fun c => c) s = s.
Proof. induction s as [|c s IH]; simpl; [reflexivity | now rewrite IH]. Qed.

Lemma strcmp_zero (s1 s2 : string) : strcmp s1 s2 = 0 <-> s1 = s2.
Proof. unfold strcmp. rewrite compare_by_zero, !smap_id. tauto. Qed.

Lemma strcasecmp_zero (s1 s2 : string) :
  strcasecmp s1 s2 = 0 <-> lower s1 = lower s2.
Proof. apply compare_by_zero. Qed.

Lemma substring_all (s : string) : substring 0 (String.length s) s = s.
Proof. induction s as [|c s IH]; simpl; [reflexivity | now rewrite IH]. Qed.

(** The test [!strncasecmp (buf, name, strlen (name))] of the source is
    [begins_with name buf]. *)
Lemma strncasecmp_begins (name line : string) :
  (strncasecmp line name (String.length name) =? 0) = begins_with name line.
Proof.
  unfold strncasecmp, begins_with. rewrite (substring_all name).
  destruct (String.eqb_spec (lower (substring 0 (String.length name) line)) (lower name))
    as [e|ne].
  - apply Z.eqb_eq, strcasecmp_zero, e.
  - apply Z.eqb_neq. intros H. apply ne, strcasecmp_zero, H.
Qed.

Lemma strcmp_CRLF (buf : string) : (strcmp buf CRLF =? 0) = String.eqb buf CRLF.
Proof.
  destruct (String.eqb_spec buf CRLF) as [e|ne].
  - apply Z.eqb_eq, strcmp_zero, e.
  - apply Z.eqb_neq. intros H. apply ne, strcmp_zero, H.
Qed.

Lemma format_noargs_plain (s : string) :
  no_percent s = true -> format_noargs s = Some s.
Proof.
  induction s as [|c s IH]; simpl; [reflexivity|].
  destruct (Ascii.eqb c "%"); simpl; [discriminate|].
  intros H. now rewrite (IH H).
Qed.

Lemma store_fits (cap : Z) (text : string) :
  strlen text < cap -> store cap text = Some text.
Proof. unfold store. intros H. apply Z.ltb_lt in H. now rewrite H. Qed.

Lemma last_cons_default {A : Type} (x d : A) (l : list A) :
  last (x :: l) d = last l x.
Proof.
  revert x d. induction l as [|y l IH]; intros x d; [reflexivity|].
  change (last (x :: y :: l) d) with (last (y :: l) d).
  now rewrite (IH y d), (IH y x).
Qed.

Lemma strlen_length (s : string) : strlen s = Z.of_nat (String.length s).
Proof.
  induction s as [|c s IH]; cbn [strlen String.length]; [reflexivity | rewrite IH; lia].
Qed.

Lemma substring_fits (n : nat) (s : string) :
  (String.length s <= n)%nat -> substring 0 n s = s.
Proof.
  revert n. induction s as [|c s IH]; intros [|n] H; simpl in *;
    try reflexivity; try lia.
  rewrite IH; [reflexivity | lia].
Qed.

Lemma snprintf_fits (size : Z) (text : string) :
  strlen text < size -> snprintf size text = (text, strlen text).
Proof.
  intros H. unfold snprintf. rewrite substring_fits; [reflexivity|].
  rewrite strlen_length in H. lia.
Qed.

(** ** Facts about [clienterror] *)

(** One write to the client: the script's next result, or success when
    the script is used up. *)
Lemma rio_writen_client_eq (bytes : string) (s : state) :
  rio_writen_client bytes s
  = Some (hd (strlen bytes) (client_wr s),
          {| client_in := client_in s; client_wr := tl (client_wr s);
             origin_in := origin_in s;
             trace := trace s ++ [ClientWrite bytes] |}).
Proof. unfold rio_writen_client. destruct (client_wr s); reflexivity. Qed.

Lemma hd_nonneg (d : Z) (l : list Z) :
  0 <= d -> Forall (fun r => 0 <= r) l -> 0 <= hd d l.
Proof. intros Hd [|r l' Hr _]; assumption. Qed.

Lemma Forall_tl {A : Type} (P : A -> Prop) (l : list A) :
  Forall P l -> Forall P (tl l).
Proof. intros [|r l' _ H]; [constructor | exact H]. Qed.

Lemma skipn_tl {A : Type} (n : nat) (l : list A) :
  skipn n (tl l) = skipn (S n) l.
Proof. destruct l; [now rewrite skipn_nil | reflexivity]. Qed.

Ltac io_step :=
  cbv beta iota delta [bind ret emit lift];
  cbn [client_in client_wr origin_in trace fst snd].

Section ClientError.

Variable E : env.
Variables cause errnum shortmsg longmsg : string.

Lemma clienterror_overflow (s : state) :
  MAXBUF E <= strlen (error_body cause errnum shortmsg longmsg)
  \/ MAXLINE E <= strlen (error_headers errnum shortmsg
                            (strlen (error_body cause errnum shortmsg longmsg))) ->
  clienterror E cause errnum shortmsg longmsg s = Some (tt, s).
Proof.
  intros H. unfold clienterror, snprintf.
  set (body := error_body cause errnum shortmsg longmsg) in *.
  destruct (Z.geb_spec (strlen body) (MAXBUF E)) as [_|Hb]; [reflexivity|].
  set (headers := error_headers errnum shortmsg (strlen body)) in *.
  destruct (Z.geb_spec (strlen headers) (MAXLINE E)) as [_|Hh]; [reflexivity|].
  lia.
Qed.

Lemma clienterror_fits (s : state) :
  strlen (error_body cause errnum shortmsg longmsg) < MAXBUF E ->
  strlen (error_headers errnum shortmsg
            (strlen (error_body cause errnum shortmsg longmsg))) < MAXLINE E ->
  Forall (fun r => 0 <= r) (client_wr s) ->
  clienterror E cause errnum shortmsg longmsg s
  = Some (tt, {| client_in := client_in s;
                 client_wr := skipn 2 (client_wr s);
                 origin_in := origin_in s;
                 trace := trace s
                          ++ [ClientWrite
                                (error_headers errnum shortmsg
                                   (strlen (error_body cause errnum shortmsg longmsg)));
                              ClientWrite
                                (error_body cause errnum shortmsg longmsg)] |}).
Proof.
  set (body := error_body cause errnum shortmsg longmsg).
  set (headers := error_headers errnum shortmsg (strlen body)).
  intros Hb Hh Hw. unfold clienterror. fold body.
  rewrite (snprintf_fits _ _ Hb).
  destruct (Z.geb_spec (strlen body) (MAXBUF E)) as [Hb'|_]; [lia|].
  fold headers. rewrite (snprintf_fits _ _ Hh).
  destruct (Z.geb_spec (strlen headers) (MAXLINE E)) as [Hh'|_]; [lia|].
  pose proof (hd_nonneg _ _ (strlen_nonneg headers) Hw) as N1.
  pose proof (hd_nonneg _ _ (strlen_nonneg body) (Forall_tl _ _ Hw)) as N2.
  io_step. rewrite rio_writen_client_eq.
  destruct (Z.ltb_spec (hd (strlen headers) (client_wr s)) 0); [lia|].
  io_step. rewrite rio_writen_client_eq. io_step.
  destruct (Z.ltb_spec (hd (strlen body) (tl (client_wr s))) 0); [lia|].
  rewrite <- app_assoc. destruct (client_wr s) as [|r1 [|r2 wr]]; reflexivity.
Qed.

(** Whatever the sizes and the write results, [clienterror] only ever
    acts on the client and on stderr. *)
Lemma clienterror_client_only (s : state) :
  exists wr out,
    clienterror E cause errnum shortmsg longmsg s
    = Some (tt, {| client_in := client_in s; client_wr := wr;
                   origin_in := origin_in s; trace := trace s ++ out |})
    /\ forallb client_only out = true.
Proof.
  unfold clienterror, snprintf.
  set (body := error_body cause errnum shortmsg longmsg).
  destruct (strlen body >=? MAXBUF E).
  { exists (client_wr s), []. rewrite app_nil_r. destruct s; split; reflexivity. }
  set (headers := error_headers errnum shortmsg (strlen body)).
  destruct (strlen headers >=? MAXLINE E).
  { exists (client_wr s), []. rewrite app_nil_r. destruct s; split; reflexivity. }
  io_step. rewrite rio_writen_client_eq.
  destruct (hd _ (client_wr s) <? 0); io_step.
  { eexists _, [_; _]. rewrite <- app_assoc. split; reflexivity. }
  rewrite rio_writen_client_eq. io_step.
  destruct (hd _ (tl (client_wr s)) <? 0); io_step.
  - eexists _, [_; _; _]. rewrite <- !app_assoc. split; reflexivity.
  - eexists _, [_; _]. rewrite <- !app_assoc. split; reflexivity.
Qed.

End ClientError.

(** ** Facts about [doit]: the requests it turns down *)

Section Rejected.

Variable E : env.

Lemma doit_rejected (s : state) (line : string) (rest : list rio_result)
      (errnum shortmsg longmsg : string) :
  client_in s = RioData line :: rest ->
  rejected E (c_str line) errnum shortmsg longmsg ->
  doit E s
  = clienterror E (c_str line) errnum shortmsg longmsg
      {| client_in := rest; client_wr := client_wr s;
         origin_in := origin_in s; trace := trace s |}.
Proof.
  intros Hin Hrej. unfold doit. io_step. unfold rio_readlineb. rewrite Hin.
  destruct Hrej as [Hp | p Hp Hm | p Hp Hm H0 H1]; rewrite Hp.
  - reflexivity.
  - apply Z.eqb_neq in Hm. rewrite Hm. reflexivity.
  - apply Z.eqb_eq in Hm. rewrite Hm, !strncasecmp_begins, H0, H1. reflexivity.
Qed.

(** A rejected request line: the connection is closed after
    [clienterror] ran, the cache and the origin are never touched, and
    the client gets the error response when it fits the two buffers
    and the writes go through, nothing when it does not fit. *)
Lemma thread_rejected (s : state) (line : string) (rest : list rio_result)
      (errnum shortmsg longmsg : string) :
  client_in s = RioData line :: rest ->
  rejected E (c_str line) errnum shortmsg longmsg ->
  let body := error_body (c_str line) errnum shortmsg longmsg in
  let headers := error_headers errnum shortmsg (strlen body) in
  exists wr out,
    thread E s
    = Some (tt, {| client_in := rest; client_wr := wr;
                   origin_in := origin_in s;
                   trace := trace s ++ out ++ [CloseClient] |})
    /\ forallb client_only out = true
    /\ (MAXBUF E <= strlen body \/ MAXLINE E <= strlen headers -> out = [])
    /\ (strlen body < MAXBUF E -> strlen headers < MAXLINE E ->
        Forall (fun r => 0 <= r) (client_wr s) ->
        out = [ClientWrite headers; ClientWrite body]).
Proof.
  intros Hin Hrej body headers.
  set (s1 := {| client_in := rest; client_wr := client_wr s;
                origin_in := origin_in s; trace := trace s |}).
  destruct (clienterror_client_only E (c_str line) errnum shortmsg longmsg s1)
    as (wr & out & Hce & Hout).
  exists wr, out. split; [|split; [exact Hout|split]].
  - unfold thread. io_step. rewrite (doit_rejected _ _ _ _ _ _ Hin Hrej).
    fold s1. rewrite Hce. io_step. now rewrite <- app_assoc.
  - intros Hov.
    rewrite (clienterror_overflow E (c_str line) errnum shortmsg longmsg s1 Hov)
      in Hce.
    injection Hce as _ Htr. unfold s1 in Htr. cbn [trace] in Htr.
    rewrite <- (app_nil_r (trace s)) in Htr at 1.
    apply app_inv_head in Htr. now symmetry.
  - intros Hb Hh Hw.
    rewrite (clienterror_fits E (c_str line) errnum shortmsg longmsg s1 Hb Hh Hw)
      in Hce.
    injection Hce as _ Htr. apply app_inv_head in Htr. now symmetry.
Qed.

End Rejected.

(** ** Facts about [build_http_request] *)

Section Headers.

Variable E : env.

Lemma reserved_test (buf : string) :
  negb (strncasecmp buf "User-Agent" (String.length "User-Agent") =? 0)
  && negb (strncasecmp buf "Connection" (String.length "Connection") =? 0)
  && negb (strncasecmp buf "Proxy-Connection" (String.length "Proxy-Connection") =? 0)
  = negb (reserved buf).
Proof.
  rewrite !strncasecmp_begins. unfold reserved.
  destruct (begins_with "User-Agent" buf), (begins_with "Connection" buf),
    (begins_with "Proxy-Connection" buf); reflexivity.
Qed.

Lemma header_loop_end (tail : list rio_result) (header_host other_header : string) :
  header_end tail ->
  header_loop E tail header_host other_header
  = Some (tl tail, header_host, other_header).
Proof.
  destruct tail as [|[b| |] t]; cbn [header_loop header_end tl]; try reflexivity.
  intros [-> | ->]; reflexivity.
Qed.

Lemma header_loop_spec (hs : list string) (tail : list rio_result) :
  forall header_host other_header : string,
  Forall (header_line E) hs ->
  Forall (fun h => begins_with "Host" h = true -> no_percent h = true) hs ->
  strlen (other_header ++ join (forwarded hs)) < MAXLINE E ->
  header_end tail ->
  header_loop E (map RioData hs ++ tail) header_host other_header
  = Some (tl tail, host_header header_host hs,
          other_header ++ join (forwarded hs)).
Proof.
  induction hs as [|h hs IH]; intros hh oh Hl Hp Hfit Hend.
  - cbn [map app forwarded filter join fold_right host_header last].
    rewrite append_nil_r. now apply header_loop_end.
  - inversion Hl as [|? ? (Hpos & Hne & Hlen & Hnf) Hl']; subst.
    inversion Hp as [|? ? Hp0 Hp']; subst.
    cbn [map app header_loop].
    apply Z.gtb_lt in Hpos. rewrite Hpos. cbv zeta. rewrite Hnf.
    rewrite strcmp_CRLF. apply String.eqb_neq in Hne. rewrite Hne.
    rewrite strncasecmp_begins, reserved_test.
    unfold forwarded, host_header in *. cbn [filter] in *.
    destruct (begins_with "Host" h) eqn:Hhost; cbn [negb andb] in *.
    + rewrite (format_noargs_plain h (Hp0 eq_refl)), (store_fits _ _ Hlen).
      rewrite last_cons_default. now apply IH.
    + destruct (reserved h) eqn:Hres; cbn [negb] in *.
      * now apply IH.
      * cbn [join fold_right] in *. fold (join (filter
          (fun h0 => negb (begins_with "Host" h0) && negb (reserved h0)) hs)) in *.
        rewrite <- append_assoc in Hfit.
        rewrite store_fits.
        -- rewrite <- append_assoc. now apply IH.
        -- rewrite strlen_app in Hfit.
           pose proof (strlen_nonneg (join (filter
             (fun h0 => negb (begins_with "Host" h0) && negb (reserved h0)) hs))).
           lia.
Qed.

Lemma build_http_request_spec (s : state) (hs : list string)
      (tail : list rio_result) (request_line header_host : string) :
  client_in s = (map RioData hs ++ tail)%list ->
  Forall (header_line E) hs ->
  Forall (fun h => begins_with "Host" h = true -> no_percent h = true) hs ->
  header_end tail ->
  strlen (request_text request_line (host_header header_host hs)
            (c_str (stack_other_header E) :: forwarded hs))
    < MAXLINE E ->
  build_http_request E request_line header_host s
  = Some (request_text request_line (host_header header_host hs)
            (c_str (stack_other_header E) :: forwarded hs),
          {| client_in := tl tail; client_wr := client_wr s;
             origin_in := origin_in s; trace := trace s |}).
Proof.
  intros Hin Hl Hp Hend Hfit. unfold build_http_request.
  unfold request_text in *. cbn [join fold_right] in *.
  fold (join (forwarded hs)) in *.
  rewrite Hin, (header_loop_spec hs tail header_host (c_str (stack_other_header E)) Hl Hp).
  - now rewrite (store_fits _ _ Hfit).
  - rewrite !strlen_app in Hfit. rewrite strlen_app.
    pose proof (strlen_nonneg request_line).
    pose proof (strlen_nonneg (host_header header_host hs)).
    pose proof (strlen_nonneg header_user_agent).
    pose proof (strlen_nonneg header_connection).
    pose proof (strlen_nonneg header_proxy_connection).
    pose proof (strlen_nonneg CRLF). lia.
  - exact Hend.
Qed.

End Headers.

(** ** Facts about the relay loop of [doit] *)

Section Relay.

Variable E : env.

Lemma relay_loop_end (tail : list rio_result) (response : string) (size : Z)
      (s : state) :
  read_end tail ->
  relay_loop E tail response size s = Some ((tl tail, response, size), s).
Proof.
  destruct tail as [|[b| |] t]; cbn [relay_loop read_end tl]; try reflexivity.
  intros ->. reflexivity.
Qed.

Lemma relay_loop_spec (chunks : list string) (tail : list rio_result) :
  forall (response : string) (size : Z) (s : state),
  Forall (fun c => 0 < strlen c) chunks ->
  read_end tail ->
  exists response',
    relay_loop E (map RioData chunks ++ tail) response size s
    = Some ((tl tail, response', size + strlen (join chunks)),
            {| client_in := client_in s;
               client_wr := skipn (List.length chunks) (client_wr s);
               origin_in := origin_in s;
               trace := trace s ++ relay_events chunks |})
    /\ (size + strlen (join chunks) < MAX_OBJECT_SIZE E ->
        response' = response ++ join chunks).
Proof.
  induction chunks as [|c chunks IH]; intros response size s Hpos Hend.
  - exists response. cbn [map app join fold_right relay_events flat_map List.length skipn].
    rewrite (relay_loop_end _ _ _ _ Hend), app_nil_r, Z.add_0_r, append_nil_r.
    destruct s; split; reflexivity.
  - inversion Hpos as [|? ? Hc Hpos']; subst.
    cbn [map app relay_loop].
    pose proof Hc as Hc'. apply Z.gtb_lt in Hc'. rewrite Hc'.
    io_step. rewrite rio_writen_client_eq. io_step.
    cbn [join fold_right]. fold (join chunks).
    rewrite strlen_app, Z.add_assoc.
    pose proof (strlen_nonneg (join chunks)) as Hj.
    destruct (Z.ltb_spec (size + strlen c) (MAX_OBJECT_SIZE E)) as [Hlt|Hge].
    + destruct (IH (response ++ c) (size + strlen c)
                  {| client_in := client_in s; client_wr := tl (client_wr s);
                     origin_in := origin_in s;
                     trace := (trace s ++ [OriginRead c]) ++ [ClientWrite c] |}
                  Hpos' Hend) as (r' & Heq & Hr').
      exists r'. split.
      * rewrite Heq. cbn [client_in client_wr origin_in trace].
        rewrite skipn_tl. unfold relay_events. cbn [flat_map List.length].
        now rewrite <- !app_assoc.
      * intros Hlt'. rewrite (Hr' Hlt'). apply append_assoc.
    + destruct (IH response (size + strlen c)
                  {| client_in := client_in s; client_wr := tl (client_wr s);
                     origin_in := origin_in s;
                     trace := (trace s ++ [OriginRead c]) ++ [ClientWrite c] |}
                  Hpos' Hend) as (r' & Heq & _).
      exists r'. split.
      * rewrite Heq. cbn [client_in client_wr origin_in trace].
        rewrite skipn_tl. unfold relay_events. cbn [flat_map List.length].
        now rewrite <- !app_assoc.
      * intros Hlt'. lia.
Qed.

Lemma relay_spec (chunks : list string) (tail : list rio_result) (s : state) :
  origin_in s = (map RioData chunks ++ tail)%list ->
  Forall (fun c => 0 < strlen c) chunks ->
  read_end tail ->
  exists response,
    relay E s
    = Some ((response, strlen (join chunks)),
            {| client_in := client_in s;
               client_wr := skipn (List.length chunks) (client_wr s);
               origin_in := tl tail;
               trace := trace s ++ relay_events chunks |})
    /\ (strlen (join chunks) < MAX_OBJECT_SIZE E -> response = join chunks).
Proof.
  intros Hin Hpos Hend. unfold relay. rewrite Hin.
  destruct (relay_loop_spec chunks tail EmptyString 0 s Hpos Hend)
    as (r' & Heq & Hr').
  exists r'. rewrite Heq. cbn [client_in client_wr origin_in trace Z.add].
  split; [reflexivity | exact Hr'].
Qed.

Lemma client_output_app (a b : list event) :
  client_output (a ++ b) = client_output a ++ client_output b.
Proof.
  induction a as [|e a IH]; [reflexivity|].
  destruct e; cbn [app client_output]; rewrite IH; try reflexivity.
  now rewrite append_assoc.
Qed.

Lemma client_output_relay (chunks : list string) :
  client_output (relay_events chunks) = join chunks.
Proof.
  induction chunks as [|c chunks IH]; [reflexivity|].
  unfold relay_events in *. cbn [flat_map app client_output join fold_right].
  now rewrite IH.
Qed.

End Relay.

(** ** Facts about [doit]: the requests it takes on *)

Section Accepted.

Variable E : env.

Lemma doit_checks_pass (p : parsed_request) :
  valid_get p ->
  negb (strcasecmp (method p) "GET" =? 0) = false
  /\ negb (strncasecmp (version p) "1.0" (String.length "1.0") =? 0)
     && negb (strncasecmp (version p) "1.1" (String.length "1.1") =? 0) = false.
Proof.
  intros [Hm Hv]. apply strcasecmp_zero, Z.eqb_eq in Hm.
  rewrite Hm, !strncasecmp_begins.
  split; [reflexivity|].
  destruct Hv as [H|H]; rewrite H; [reflexivity | apply andb_false_r].
Qed.

(** A cache miss with a reachable origin, from the request line to
    [close (connfd)]. *)
Lemma thread_miss (s : state) (line : string) (p : parsed_request)
      (hs : list string) (tail : list rio_result)
      (n : Z) (written : option string)
      (chunks : list string) (otail : list rio_result) :
  client_in s = RioData line :: (map RioData hs ++ tail)%list ->
  parser_parse_line E (c_str line) = REQUEST p ->
  valid_get p ->
  read_cache E (uri p) = (n, written) ->
  n <= 0 ->
  header_end tail ->
  forwardable E p hs ->
  0 <= open_clientfd E (host p) (port p) ->
  origin_in s = (map RioData chunks ++ otail)%list ->
  Forall (fun c => 0 < strlen c) chunks ->
  read_end otail ->
  thread E s
  = Some (tt, {| client_in := tl tail;
                 client_wr := skipn (List.length chunks) (client_wr s);
                 origin_in := tl otail;
                 trace := trace s
                          ++ CacheLookup (uri p) :: written_events written
                          ++ [OriginConnect (host p) (port p);
                              OriginWrite (forwarded_request E p hs)]
                          ++ relay_events chunks
                          ++ insert_events E p chunks
                          ++ [CloseOrigin; CloseClient] |}).
Proof.
  intros Hin Hparse Hvalid Hrc Hn Hend (Hl & Hp & Hrl & Hbh & Hfit)
         Hconn Horigin Hpos Hoend.
  destruct (doit_checks_pass p Hvalid) as [Hc1 Hc2].
  unfold thread, doit. io_step. unfold rio_readlineb. rewrite Hin, Hparse, Hc1, Hc2, Hrc.
  io_step.
  assert (Hw : forall s0 : state,
             match written with
             | Some bytes => emit (ClientWrite bytes)
             | None => ret tt
             end s0
             = Some (tt, {| client_in := client_in s0; client_wr := client_wr s0;
                            origin_in := origin_in s0;
                            trace := trace s0 ++ written_events written |})).
  { intros s0. destruct written; cbn [written_events]; io_step;
      [reflexivity | rewrite app_nil_r; destruct s0; reflexivity]. }
  rewrite Hw. io_step.
  destruct (Z.gtb_spec n 0) as [Hgt|_]; [lia|].
  fold (request_line_of p). fold (built_host p).
  rewrite (store_fits _ _ Hrl), (store_fits _ _ Hbh).
  erewrite (build_http_request_spec E _ hs tail);
    [ | reflexivity | exact Hl | exact Hp | exact Hend | exact Hfit ].
  fold (forwarded_request E p hs). io_step.
  destruct (Z.ltb_spec (open_clientfd E (host p) (port p)) 0) as [Hneg|_]; [lia|].
  match goal with
  | |- context [relay E ?s1] =>
      destruct (relay_spec E chunks otail s1 Horigin Hpos Hoend) as (resp & Hrelay & Hresp);
      rewrite Hrelay
  end.
  io_step. unfold insert_events.
  destruct (Z.ltb_spec (strlen (join chunks)) (MAX_OBJECT_SIZE E)) as [Hlt|Hge];
    io_step.
  - rewrite (Hresp Hlt). repeat rewrite <- app_assoc. reflexivity.
  - repeat rewrite <- app_assoc. reflexivity.
Qed.

Lemma thread_cache_miss (s : state) (line : string) (p : parsed_request)
      (hs : list string) (tail : list rio_result) (written : option string)
      (chunks : list string) (otail : list rio_result) :
  cache_miss E s line p hs tail written chunks otail ->
  thread E s
  = Some (tt, {| client_in := tl tail;
                 client_wr := skipn (List.length chunks) (client_wr s);
                 origin_in := tl otail;
                 trace := trace s
                          ++ CacheLookup (uri p) :: written_events written
                          ++ [OriginConnect (host p) (port p);
                              OriginWrite (forwarded_request E p hs)]
                          ++ relay_events chunks
                          ++ insert_events E p chunks
                          ++ [CloseOrigin; CloseClient] |}).
Proof.
  intros [Hin Hparse Hvalid (n & Hrc & Hn) Hend Hfw Hconn Horigin Hpos Hoend].
  exact (thread_miss s line p hs tail n written chunks otail
           Hin Hparse Hvalid Hrc Hn Hend Hfw Hconn Horigin Hpos Hoend).
Qed.

End Accepted.

Lemma client_output_written (written : option string) :
  client_output (written_events written)
  = match written with Some bytes => bytes | None => EmptyString end.
Proof. destruct written; [apply append_nil_r | reflexivity]. Qed.

Lemma client_output_insert (E : env) (p : parsed_request) (chunks : list string) :
  client_output (insert_events E p chunks) = EmptyString.
Proof. unfold insert_events. destruct (_ <? _); reflexivity. Qed.


Lemma host_header_last (built : string) (before after : list string) (h : string) :
  begins_with "Host" h = true ->
  Forall (fun h' => begins_with "Host" h' = false) after ->
  host_header built (before ++ h :: after) = h.
Proof.
  intros Hh Hafter. unfold host_header.
  rewrite filter_app. cbn [filter]. rewrite Hh.
  replace (filter (begins_with "Host") after) with (@nil string).
  - now rewrite last_last.
  - induction Hafter as [|a after Ha _ IH]; [reflexivity|].
    cbn [filter]. now rewrite Ha.
Qed.

Lemma forwarded_not_reserved (hs : list string) (h : string) :
  In h (forwarded hs) ->
  begins_with "Host" h = false
  /\ begins_with "User-Agent" h = false
  /\ begins_with "Connection" h = false
  /\ begins_with "Proxy-Connection" h = false.
Proof.
  unfold forwarded. rewrite filter_In. intros [_ H]. unfold reserved in H.
  destruct (begins_with "Host" h), (begins_with "User-Agent" h),
    (begins_with "Connection" h), (begins_with "Proxy-Connection" h);
    try discriminate H; repeat split.
Qed.

(** ** Error responses *)

Ltac by_computation :=
  first [ apply Z.ltb_lt; vm_compute; reflexivity
        | apply Z.leb_le; vm_compute; reflexivity
        | vm_compute; reflexivity ].

(** C9: for every error response, when the formatted body reaches
    [MAXBUF] bytes or the formatted headers reach [MAXLINE] bytes,
    [clienterror] returns without writing anything; a request line the
    handler turns down with such a response (the line is quoted as a C
    string, up to its first NUL) gets the connection closed and no error
    response at all. *)
Theorem clienterror_overflow_is_silent
        (E : env) (cause errnum shortmsg longmsg : string) :
  MAXBUF E <= strlen (error_body cause errnum shortmsg longmsg)
  \/ MAXLINE E <= strlen (error_headers errnum shortmsg
                            (strlen (error_body cause errnum shortmsg longmsg))) ->
  (forall s : state, clienterror E cause errnum shortmsg longmsg s = Some (tt, s))
  /\ (forall (s : state) (line : string) (rest : list rio_result),
         client_in s = RioData line :: rest ->
         c_str line = cause ->
         rejected E cause errnum shortmsg longmsg ->
         thread E s
         = Some (tt, {| client_in := rest; client_wr := client_wr s;
                        origin_in := origin_in s;
                        trace := trace s ++ [CloseClient] |})).
Proof.
  intros Hov. split.
  - intros s. now apply clienterror_overflow.
  - intros s line rest Hin <- Hrej. unfold thread. io_step.
    rewrite (doit_rejected E s line rest _ _ _ Hin Hrej).
    rewrite (clienterror_overflow E (c_str line) errnum shortmsg longmsg _ Hov).
    reflexivity.
Qed.

(** A malformed line of 8102 bytes: the connection is closed and the
    client has received nothing. *)
Lemma clienterror_overflow_is_silent_witness :
  thread (sample_env (fun _ => ERROR) empty_cache) (connection [long_garbage] [])
  = Some (tt, {| client_in := []; client_wr := []; origin_in := [];
                 trace := [CloseClient] |}).
Proof.
  refine (proj2 (clienterror_overflow_is_silent
                   (sample_env (fun _ => ERROR) empty_cache) long_garbage
                   "400" "Bad Request"
                   "Tiny could not handle this request (ERROR)" _)
                (connection [long_garbage] []) long_garbage [] eq_refl _ _).
  - left. by_computation.
  - vm_compute. reflexivity.
  - apply rejected_parse. reflexivity.
Defined.

(** C7, as amended: a request line the parser reports as an error ends
    the connection with no cache lookup and no origin contact; the 400
    response, which quotes the line as a C string, is written, headers
    then body, when it fits the two buffers of [clienterror] and the
    writes succeed; when it does not fit, nothing is written. *)
Theorem parse_error_gets_400
        (E : env) (s : state) (line : string) (rest : list rio_result) :
  client_in s = RioData line :: rest ->
  parser_parse_line E (c_str line) = ERROR ->
  let longmsg := "Tiny could not handle this request (ERROR)" in
  let body := error_body (c_str line) "400" "Bad Request" longmsg in
  let headers := error_headers "400" "Bad Request" (strlen body) in
  exists wr out,
    thread E s
    = Some (tt, {| client_in := rest; client_wr := wr; origin_in := origin_in s;
                   trace := trace s ++ out ++ [CloseClient] |})
    /\ forallb client_only out = true
    /\ (MAXBUF E <= strlen body \/ MAXLINE E <= strlen headers -> out = [])
    /\ (strlen body < MAXBUF E -> strlen headers < MAXLINE E ->
        Forall (fun r => 0 <= r) (client_wr s) ->
        out = [ClientWrite headers; ClientWrite body]).
Proof.
  intros Hin Hparse longmsg body headers.
  exact (thread_rejected E s line rest _ _ _ Hin (rejected_parse E _ Hparse)).
Qed.

Lemma parse_error_gets_400_witness :
  exists wr out,
    thread (sample_env (fun _ => ERROR) empty_cache) (connection ["GET /" ++ CRLF] [])
    = Some (tt, {| client_in := []; client_wr := wr; origin_in := [];
                   trace := out ++ [CloseClient] |})
    /\ forallb client_only out = true
    /\ out = [ClientWrite
                (error_headers "400" "Bad Request"
                   (strlen (error_body ("GET /" ++ CRLF) "400" "Bad Request"
                              "Tiny could not handle this request (ERROR)")));
              ClientWrite
                (error_body ("GET /" ++ CRLF) "400" "Bad Request"
                   "Tiny could not handle this request (ERROR)")].
Proof.
  destruct (parse_error_gets_400
              (sample_env (fun _ => ERROR) empty_cache)
              (connection ["GET /" ++ CRLF] []) ("GET /" ++ CRLF) []
              eq_refl eq_refl) as (wr & out & Hrun & Honly & _ & Hout).
  exists wr, out. split; [exact Hrun | split; [exact Honly|]].
  apply Hout; [by_computation | by_computation | constructor].
Defined.

(** C7 as stated fails: the parser reports an error on a line of 8102
    bytes, which [rio_readlineb] can deliver, and the client receives no
    response. *)
Lemma parse_error_without_response :
  strlen long_garbage < MAXLINE (sample_env (fun _ => ERROR) empty_cache)
  /\ parser_parse_line (sample_env (fun _ => ERROR) empty_cache) long_garbage = ERROR
  /\ thread (sample_env (fun _ => ERROR) empty_cache) (connection [long_garbage] [])
     = Some (tt, {| client_in := []; client_wr := []; origin_in := [];
                    trace := [CloseClient] |}).
Proof. split; [by_computation | split; [reflexivity | vm_compute; reflexivity]]. Qed.

(** C5, as amended: a parsed request whose method is not GET, letter
    case ignored, ends the connection with no cache lookup and no origin
    contact; the 501 response, which quotes the request line as a C
    string, is written, headers then body, when it fits the two buffers
    of [clienterror] and the writes succeed; when it does not fit,
    nothing is written. *)
Theorem other_method_gets_501
        (E : env) (s : state) (line : string) (rest : list rio_result)
        (p : parsed_request) :
  client_in s = RioData line :: rest ->
  parser_parse_line E (c_str line) = REQUEST p ->
  lower (method p) <> lower "GET" ->
  let longmsg := "Tiny does not implement this method" in
  let body := error_body (c_str line) "501" "Not implemented" longmsg in
  let headers := error_headers "501" "Not implemented" (strlen body) in
  exists wr out,
    thread E s
    = Some (tt, {| client_in := rest; client_wr := wr; origin_in := origin_in s;
                   trace := trace s ++ out ++ [CloseClient] |})
    /\ forallb client_only out = true
    /\ (MAXBUF E <= strlen body \/ MAXLINE E <= strlen headers -> out = [])
    /\ (strlen body < MAXBUF E -> strlen headers < MAXLINE E ->
        Forall (fun r => 0 <= r) (client_wr s) ->
        out = [ClientWrite headers; ClientWrite body]).
Proof.
  intros Hin Hparse Hm longmsg body headers.
  assert (Hrej : rejected E (c_str line) "501" "Not implemented" longmsg).
  { apply (rejected_method E _ p Hparse). intros H. apply Hm.
    now apply strcasecmp_zero. }
  exact (thread_rejected E s line rest _ _ _ Hin Hrej).
Qed.

Lemma other_method_gets_501_witness :
  exists wr out,
    thread (sample_env (fun _ => REQUEST sample_post) empty_cache)
           (connection ["POST / HTTP/1.1" ++ CRLF; CRLF] [])
    = Some (tt, {| client_in := [RioData CRLF]; client_wr := wr; origin_in := [];
                   trace := out ++ [CloseClient] |})
    /\ forallb client_only out = true
    /\ out = [ClientWrite
                (error_headers "501" "Not implemented"
                   (strlen (error_body ("POST / HTTP/1.1" ++ CRLF) "501"
                              "Not implemented"
                              "Tiny does not implement this method")));
              ClientWrite
                (error_body ("POST / HTTP/1.1" ++ CRLF) "501" "Not implemented"
                   "Tiny does not implement this method")].
Proof.
  destruct (other_method_gets_501
              (sample_env (fun _ => REQUEST sample_post) empty_cache)
              (connection ["POST / HTTP/1.1" ++ CRLF; CRLF] [])
              ("POST / HTTP/1.1" ++ CRLF) [RioData CRLF] sample_post
              eq_refl eq_refl) as (wr & out & Hrun & Honly & _ & Hout).
  - intros H. vm_compute in H. discriminate H.
  - exists wr, out. split; [exact Hrun | split; [exact Honly|]].
    apply Hout; [by_computation | by_computation | constructor].
Defined.

(** C5 as stated fails: a POST request line of 8135 bytes is parsed, its
    method is not GET, and the client receives no response.  And the
    method test ignores letter case: a request whose method is [get] is
    not turned down but fetched from the origin. *)
Lemma other_method_without_response :
  (strlen long_post_line < MAXLINE (sample_env (fun _ => REQUEST long_post) empty_cache)
   /\ method long_post = "POST"
   /\ thread (sample_env (fun _ => REQUEST long_post) empty_cache)
             (connection [long_post_line] [])
      = Some (tt, {| client_in := []; client_wr := []; origin_in := [];
                     trace := [CloseClient] |}))
  /\ (method sample_lowercase <> "GET"
      /\ thread (sample_env (fun _ => REQUEST sample_lowercase) empty_cache)
                (connection ["get http://example.com/ HTTP/1.1" ++ CRLF;
                             "Host: example.com" ++ CRLF; CRLF] sample_response)
         = Some (tt, {| client_in := []; client_wr := []; origin_in := [];
                        trace := scenario_a_trace |})).
Proof.
  split; [split; [by_computation | split; [reflexivity | vm_compute; reflexivity]]|].
  split; [discriminate | vm_compute; reflexivity].
Qed.

(** C6, as amended: a parsed GET request whose version string begins with
    neither 1.0 nor 1.1 is not taken on: the connection ends with no
    cache lookup and no origin contact, and the 400 response, which
    quotes the request line as a C string, is written, headers then
    body, when it fits the two buffers of [clienterror] and the writes
    succeed; when it does not fit, nothing is written. *)
Theorem other_version_gets_400
        (E : env) (s : state) (line : string) (rest : list rio_result)
        (p : parsed_request) :
  client_in s = RioData line :: rest ->
  parser_parse_line E (c_str line) = REQUEST p ->
  lower (method p) = lower "GET" ->
  begins_with "1.0" (version p) = false ->
  begins_with "1.1" (version p) = false ->
  let longmsg := "Tiny could not handle this request (HTTP_VERSION)" in
  let body := error_body (c_str line) "400" "Bad Request" longmsg in
  let headers := error_headers "400" "Bad Request" (strlen body) in
  exists wr out,
    thread E s
    = Some (tt, {| client_in := rest; client_wr := wr; origin_in := origin_in s;
                   trace := trace s ++ out ++ [CloseClient] |})
    /\ forallb client_only out = true
    /\ (MAXBUF E <= strlen body \/ MAXLINE E <= strlen headers -> out = [])
    /\ (strlen body < MAXBUF E -> strlen headers < MAXLINE E ->
        Forall (fun r => 0 <= r) (client_wr s) ->
        out = [ClientWrite headers; ClientWrite body]).
Proof.
  intros Hin Hparse Hm H0 H1 longmsg body headers.
  assert (Hrej : rejected E (c_str line) "400" "Bad Request" longmsg).
  { apply (rejected_version E _ p Hparse); try assumption.
    now apply strcasecmp_zero. }
  exact (thread_rejected E s line rest _ _ _ Hin Hrej).
Qed.

Lemma other_version_gets_400_witness :
  exists wr out,
    thread (sample_env (fun _ => REQUEST sample_http2) empty_cache)
           (connection ["GET / HTTP/2.0" ++ CRLF] [])
    = Some (tt, {| client_in := []; client_wr := wr; origin_in := [];
                   trace := out ++ [CloseClient] |})
    /\ forallb client_only out = true
    /\ out = [ClientWrite
                (error_headers "400" "Bad Request"
                   (strlen (error_body ("GET / HTTP/2.0" ++ CRLF) "400"
                              "Bad Request"
                              "Tiny could not handle this request (HTTP_VERSION)")));
              ClientWrite
                (error_body ("GET / HTTP/2.0" ++ CRLF) "400" "Bad Request"
                   "Tiny could not handle this request (HTTP_VERSION)")].
Proof.
  destruct (other_version_gets_400
              (sample_env (fun _ => REQUEST sample_http2) empty_cache)
              (connection ["GET / HTTP/2.0" ++ CRLF] [])
              ("GET / HTTP/2.0" ++ CRLF) [] sample_http2
              eq_refl eq_refl eq_refl eq_refl eq_refl)
    as (wr & out & Hrun & Honly & _ & Hout).
  exists wr, out. split; [exact Hrun | split; [exact Honly|]].
  apply Hout; [by_computation | by_computation | constructor].
Defined.

(** C6 as stated fails: a GET request line of 8134 bytes with version
    2.0 is parsed, and the client receives no response.  And the version
    test looks at three bytes only: a request whose version is [1.10] is
    not turned down but fetched from the origin. *)
Lemma other_version_without_response :
  (strlen long_get_line < MAXLINE (sample_env (fun _ => REQUEST long_get) empty_cache)
   /\ method long_get = "GET" /\ version long_get = "2.0"
   /\ thread (sample_env (fun _ => REQUEST long_get) empty_cache)
             (connection [long_get_line] [])
      = Some (tt, {| client_in := []; client_wr := []; origin_in := [];
                     trace := [CloseClient] |}))
  /\ (version sample_http110 = "1.10"
      /\ thread (sample_env (fun _ => REQUEST sample_http110) empty_cache)
                (connection ["GET http://example.com/ HTTP/1.10" ++ CRLF;
                             "Host: example.com" ++ CRLF; CRLF] sample_response)
         = Some (tt, {| client_in := []; client_wr := []; origin_in := [];
                        trace := scenario_a_trace |})).
Proof.
  split.
  - split; [by_computation | split; [reflexivity | split; [reflexivity|]]].
    vm_compute. reflexivity.
  - split; [reflexivity | vm_compute; reflexivity].
Qed.

(** ** Requests served from the cache *)




(** ** Requests fetched from the origin *)

Ltac sample_miss :=
  split;
  [ reflexivity
  | reflexivity
  | split; [by_computation | right; by_computation]
  | exists 0; split; [reflexivity | by_computation]
  | cbn; auto
  | repeat split; try by_computation;
    repeat constructor; try by_computation;
    try (intros H; vm_compute in H; discriminate H)
  | by_computation
  | reflexivity
  | repeat constructor; by_computation
  | exact I ].

(** C4: on a cache miss every chunk read from the origin is written to
    the client right after it was read, whatever the total size: the
    client receives the bytes of the response in full and in order, also
    when the total exceeds [MAX_OBJECT_SIZE]. *)
Theorem origin_response_relayed_in_full
        (E : env) (s : state) (line : string) (p : parsed_request)
        (hs : list string) (tail : list rio_result) (written : option string)
        (chunks : list string) (otail : list rio_result) :
  cache_miss E s line p hs tail written chunks otail ->
  exists s' before after,
    thread E s = Some (tt, s')
    /\ trace s'
       = (trace s ++ before
          ++ flat_map (fun c => [OriginRead c; ClientWrite c]) chunks
          ++ after)%list
    /\ Forall (fun e => forall bytes, e <> OriginRead bytes) (before ++ after)
    /\ client_output (trace s')
       = client_output (trace s) ++ client_output (written_events written)
         ++ join chunks.
Proof.
  intros Hmiss.
  eexists _,
    (CacheLookup (uri p) :: written_events written
     ++ [OriginConnect (host p) (port p); OriginWrite (forwarded_request E p hs)])%list,
    (insert_events E p chunks ++ [CloseOrigin; CloseClient])%list.
  split; [|split; [|split]].
  - exact (thread_cache_miss E s line p hs tail written chunks otail Hmiss).
  - cbn [trace app]. do 2 f_equal. now rewrite <- app_assoc.
  - cbn [app]. constructor; [discriminate|].
    repeat (apply Forall_app; split).
    + destruct written; repeat constructor; discriminate.
    + repeat constructor; discriminate.
    + unfold insert_events. destruct (_ <? _); repeat constructor; discriminate.
    + repeat constructor; discriminate.
  - cbn [trace]. rewrite client_output_app. cbn [client_output].
    rewrite !client_output_app. cbn [client_output].
    fold (relay_events chunks).
    rewrite client_output_relay, client_output_insert.
    cbn [String.append]. now rewrite append_nil_r.
Qed.

(** An origin response of 13 full chunks, 106496 bytes, above the
    object limit of 102400. *)
Lemma origin_response_relayed_in_full_witness :
  MAX_OBJECT_SIZE (sample_env (fun _ => REQUEST sample_request) empty_cache)
  < strlen (join oversized_response)
  /\ exists s' before after,
      thread (sample_env (fun _ => REQUEST sample_request) empty_cache)
             (connection [sample_line; "Accept: */*" ++ CRLF; CRLF] oversized_response)
      = Some (tt, s')
      /\ trace s'
         = (before
            ++ flat_map (fun c => [OriginRead c; ClientWrite c]) oversized_response
            ++ after)%list
      /\ Forall (fun e => forall bytes, e <> OriginRead bytes) (before ++ after)
      /\ client_output (trace s') = join oversized_response.
Proof.
  split; [by_computation|].
  apply (origin_response_relayed_in_full
           (sample_env (fun _ => REQUEST sample_request) empty_cache)
           (connection [sample_line; "Accept: */*" ++ CRLF; CRLF] oversized_response)
           sample_line sample_request ["Accept: */*" ++ CRLF] [RioData CRLF] None
           oversized_response []).
  sample_miss.
Defined.

(** C2: after the origin's response was read to its end (end of file,
    or a failed read), [write_cache] is called with the URI and the whole response exactly when the total
    size is below [MAX_OBJECT_SIZE]; a response of [MAX_OBJECT_SIZE]
    bytes or more is not inserted.  The claim sets the limit one byte
    higher: it has a response of exactly [MAX_OBJECT_SIZE] bytes cached. *)
Theorem response_cached_below_cap_only
        (E : env) (s : state) (line : string) (p : parsed_request)
        (hs : list string) (tail : list rio_result) (written : option string)
        (chunks : list string) (otail : list rio_result) :
  cache_miss E s line p hs tail written chunks otail ->
  exists s' before,
    thread E s = Some (tt, s')
    /\ Forall (fun e => forall k b n, e <> CacheInsert k b n) before
    /\ (strlen (join chunks) < MAX_OBJECT_SIZE E ->
        trace s' = (trace s ++ before
                    ++ [CacheInsert (uri p) (join chunks) (strlen (join chunks));
                        CloseOrigin; CloseClient])%list)
    /\ (MAX_OBJECT_SIZE E <= strlen (join chunks) ->
        trace s' = (trace s ++ before ++ [CloseOrigin; CloseClient])%list).
Proof.
  intros Hmiss.
  eexists _,
    (CacheLookup (uri p) :: written_events written
     ++ [OriginConnect (host p) (port p); OriginWrite (forwarded_request E p hs)]
     ++ relay_events chunks)%list.
  split; [|split; [|split]].
  - exact (thread_cache_miss E s line p hs tail written chunks otail Hmiss).
  - constructor; [discriminate|].
    apply Forall_app. split; [destruct written; repeat constructor; discriminate|].
    constructor; [discriminate|]. constructor; [discriminate|].
    unfold relay_events. clear Hmiss.
    induction chunks as [|c chunks IH]; cbn [flat_map app]; repeat constructor;
      try discriminate. exact IH.
  - intros Hlt. cbn [trace app]. unfold insert_events.
    destruct (Z.ltb_spec (strlen (join chunks)) (MAX_OBJECT_SIZE E)); [|lia].
    do 2 f_equal. now rewrite <- !app_assoc.
  - intros Hge. cbn [trace app]. unfold insert_events.
    destruct (Z.ltb_spec (strlen (join chunks)) (MAX_OBJECT_SIZE E)); [lia|].
    do 2 f_equal. now rewrite <- !app_assoc.
Qed.

(** A response of exactly [MAX_OBJECT_SIZE] bytes, read to end of file,
    never reaches [write_cache]. *)
Lemma response_cached_below_cap_only_witness :
  strlen (join exact_cap_response)
  = MAX_OBJECT_SIZE (sample_env (fun _ => REQUEST sample_request) empty_cache)
  /\ exists s' before,
      thread (sample_env (fun _ => REQUEST sample_request) empty_cache)
             (connection [sample_line; CRLF] exact_cap_response)
      = Some (tt, s')
      /\ Forall (fun e => forall k b n, e <> CacheInsert k b n) before
      /\ trace s' = (before ++ [CloseOrigin; CloseClient])%list.
Proof.
  split; [by_computation|].
  destruct (response_cached_below_cap_only
              (sample_env (fun _ => REQUEST sample_request) empty_cache)
              (connection [sample_line; CRLF] exact_cap_response)
              sample_line sample_request [] [RioData CRLF] None
              exact_cap_response [])
    as (s' & before & Hrun & Hbefore & _ & Hge).
  - sample_miss.
  - exists s', before. split; [exact Hrun | split; [exact Hbefore|]].
    apply Hge. by_computation.
Defined.

(** ** The forwarded request *)




(** C10, as amended: [build_http_request] tests each client line for a
    prefix, letter case ignored, not for a header name.  Every line
    beginning with User-Agent, Connection, Proxy-Connection or Host is
    left out of the forwarded lines, and the last line beginning with
    Host is the Host line of the request; an earlier such line is
    overwritten by a later one and reaches the origin nowhere.  When no
    line holds a NUL byte, no line beginning with Host holds a [%], the
    request text fits [MAXLINE] and the [other_header] array starts out
    empty, that last line is forwarded whole and the other forwarded
    lines unchanged. *)
Theorem header_filter_matches_prefixes
        (E : env) (s : state) (hs : list string) (tail : list rio_result)
        (request_line header_host : string) :
  client_in s = (map RioData hs ++ tail)%list ->
  Forall (header_line E) hs ->
  Forall (fun h => begins_with "Host" h = true -> no_percent h = true) hs ->
  header_end tail ->
  stack_other_header E = EmptyString ->
  strlen (request_text request_line (host_header header_host hs) (forwarded hs))
    < MAXLINE E ->
  build_http_request E request_line header_host s
  = Some (request_line ++ host_header header_host hs
          ++ header_user_agent ++ header_connection ++ header_proxy_connection
          ++ join (forwarded hs) ++ CRLF,
          {| client_in := tl tail; client_wr := client_wr s;
             origin_in := origin_in s; trace := trace s |})
  /\ (forall h, In h hs ->
        In h (forwarded hs)
        <-> begins_with "Host" h = false
            /\ begins_with "User-Agent" h = false
            /\ begins_with "Connection" h = false
            /\ begins_with "Proxy-Connection" h = false)
  /\ (forall before h after,
         hs = (before ++ h :: after)%list ->
         begins_with "Host" h = true ->
         Forall (fun h' => begins_with "Host" h' = false) after ->
         host_header header_host hs = h).
Proof.
  intros Hin Hl Hp Hend Hst Hfit. split; [|split].
  - assert (Hreq : request_text request_line (host_header header_host hs)
                     (c_str (stack_other_header E) :: forwarded hs)
                   = request_text request_line (host_header header_host hs)
                       (forwarded hs)).
    { unfold request_text. rewrite Hst. reflexivity. }
    rewrite <- Hreq in Hfit.
    rewrite (build_http_request_spec E s hs tail request_line header_host
               Hin Hl Hp Hend Hfit), Hreq.
    reflexivity.
  - intros h Hh. split; [apply forwarded_not_reserved|].
    intros (H0 & H1 & H2 & H3). unfold forwarded. apply filter_In.
    split; [exact Hh|]. unfold reserved. now rewrite H0, H1, H2, H3.
  - intros before h after -> Hh Hafter. now apply host_header_last.
Qed.

(** The two lines the claim names: [Connection-Id: 5] is dropped and
    [Host-Override: x] becomes the Host line. *)
Lemma header_filter_matches_prefixes_witness :
  build_http_request (sample_env (fun _ => REQUEST sample_request) empty_cache)
    (request_line_of sample_request) (built_host sample_request)
    (connection ["Connection-Id: 5" ++ CRLF; "Accept: */*" ++ CRLF;
                 "Host-Override: x" ++ CRLF; CRLF] [])
  = Some (("GET / HTTP/1.0" ++ CRLF) ++ ("Host-Override: x" ++ CRLF)
          ++ header_user_agent ++ header_connection ++ header_proxy_connection
          ++ ("Accept: */*" ++ CRLF) ++ CRLF,
          connection [] []).
Proof.
  apply (header_filter_matches_prefixes
           (sample_env (fun _ => REQUEST sample_request) empty_cache)
           (connection ["Connection-Id: 5" ++ CRLF; "Accept: */*" ++ CRLF;
                        "Host-Override: x" ++ CRLF; CRLF] [])
           ["Connection-Id: 5" ++ CRLF; "Accept: */*" ++ CRLF;
            "Host-Override: x" ++ CRLF]
           [RioData CRLF]
           (request_line_of sample_request) (built_host sample_request)).
  - reflexivity.
  - repeat constructor; try by_computation;
      intros H; vm_compute in H; discriminate H.
  - repeat constructor; intros _; by_computation.
  - left. reflexivity.
  - reflexivity.
  - by_computation.
Defined.

(** C10 as stated fails: both client lines begin with Host, and only the
    second is taken as the Host line of the request; the first, although
    it begins with Host, is not. *)
Lemma earlier_host_line_is_overwritten :
  begins_with "Host" ("Host: a.example" ++ CRLF) = true
  /\ begins_with "Host" ("Host-Override: x" ++ CRLF) = true
  /\ build_http_request (sample_env (fun _ => REQUEST sample_request) empty_cache)
       (request_line_of sample_request) (built_host sample_request)
       (connection ["Host: a.example" ++ CRLF; "Host-Override: x" ++ CRLF; CRLF] [])
     = Some (("GET / HTTP/1.0" ++ CRLF) ++ ("Host-Override: x" ++ CRLF)
             ++ header_user_agent ++ header_connection ++ header_proxy_connection
             ++ CRLF,
             connection [] []).
Proof. repeat split; vm_compute; reflexivity. Qed.

(** ** The accept loop *)

Lemma accept_loop_app (before after : list accepted) :
  accept_loop (before ++ after)
  = ((fst (accept_loop before) ++ fst (accept_loop after))%list, Serving)
  /\ snd (accept_loop after) = Serving.
Proof.
  induction before as [|a before IH]; cbn [app accept_loop fst].
  - induction after as [|a after IH]; [split; reflexivity|].
    cbn [accept_loop]. unfold accept_iteration.
    destruct IH as [_ IH]. destruct (accept_loop after) as [evs r].
    cbn [snd fst] in *. subst r. destruct (connfd a <? 0); split; reflexivity.
  - destruct IH as [IH Hafter]. rewrite IH. split; [|exact Hafter].
    unfold accept_iteration.
    destruct (accept_loop before) as [evs r]. cbn [fst].
    destruct (connfd a <? 0); cbn [fst]; now rewrite <- ?app_assoc.
Qed.

(** C8: an [accept] that fails does not end the accept loop: the error
    is reported with [perror], no thread is created, and the loop goes
    on to the next [accept]; whatever the results of the [accept] calls,
    [main] is still serving when they have all been consumed. *)
Theorem accept_failure_keeps_serving
        (prog port_arg : string) (listenfd : Z)
        (before after : list accepted) (a : accepted) :
  0 <= listenfd ->
  connfd a < 0 ->
  main [prog; port_arg] listenfd (before ++ a :: after)
  = ((fst (main [prog; port_arg] listenfd before)
      ++ [Accept; Perror "accept error"]
      ++ fst (accept_loop after))%list, Serving).
Proof.
  intros Hl Ha. unfold main.
  destruct (Z.ltb_spec listenfd 0) as [Hneg|_]; [lia|].
  destruct (accept_loop_app before (a :: after)) as [-> _].
  destruct (accept_loop_app [a] after) as [Hone _].
  cbn [app] in Hone. rewrite Hone. cbn [accept_loop fst].
  unfold accept_iteration at 1.
  destruct (Z.ltb_spec (connfd a) 0) as [_|Hge]; [|lia].
  cbn [accept_loop fst app].
  destruct (accept_loop before) as [evs r]. cbn [fst app].
  reflexivity.
Qed.

Lemma accept_failure_keeps_serving_witness :
  main ["proxy"; "8080"] 3
       [ {| connfd := 4; peer_host := "localhost"; peer_port := "40000" |};
         {| connfd := -1; peer_host := EmptyString; peer_port := EmptyString |};
         {| connfd := 5; peer_host := "localhost"; peer_port := "40001" |} ]
  = ([IgnoreSigpipe; InitCache;
      Accept; Stdout ("Accepted connection from (localhost, 40000)" ++ NL);
      PthreadCreate 4;
      Accept; Perror "accept error";
      Accept; Stdout ("Accepted connection from (localhost, 40001)" ++ NL);
      PthreadCreate 5], Serving).
Proof.
  apply (accept_failure_keeps_serving "proxy" "8080" 3
           [ {| connfd := 4; peer_host := "localhost"; peer_port := "40000" |} ]
           [ {| connfd := 5; peer_host := "localhost"; peer_port := "40001" |} ]
           {| connfd := -1; peer_host := EmptyString; peer_port := EmptyString |});
    by_computation.
Defined.

(** * Further properties of [proxy.c] *)

(** ** [doit]: an origin that cannot be reached, reads that fail *)

Ltac sample_built :=
  split;
  [ reflexivity
  | reflexivity
  | split; [by_computation | right; by_computation]
  | exists 0; split; [reflexivity | by_computation]
  | cbn; auto
  | repeat split; try by_computation;
    repeat constructor; try by_computation;
    try (intros H; vm_compute in H; discriminate H) ].

(** X1: when [open_clientfd] fails on a cache miss, [doit] has already
    read the client's header lines; it logs "Connection failed" and
    returns: nothing is written to the client or to an origin, nothing
    is inserted into the cache, and the connection is closed. *)
Theorem connect_failure_leaves_client_without_answer
        (E : env) (s : state) (line : string) (p : parsed_request)
        (hs : list string) (tail : list rio_result) (written : option string) :
  request_built E s line p hs tail written ->
  open_clientfd E (host p) (port p) < 0 ->
  thread E s
  = Some (tt, {| client_in := tl tail; client_wr := client_wr s;
                 origin_in := origin_in s;
                 trace := trace s
                          ++ CacheLookup (uri p) :: written_events written
                          ++ [OriginConnect (host p) (port p);
                              Stderr ("Connection failed" ++ NL);
                              CloseClient] |}).
Proof.
  intros [Hin Hparse Hvalid (n & Hrc & Hn) Hend (Hl & Hp & Hrl & Hbh & Hfit)] Hconn.
  destruct (doit_checks_pass p Hvalid) as [Hc1 Hc2].
  unfold thread, doit. io_step. unfold rio_readlineb.
  rewrite Hin, Hparse, Hc1, Hc2, Hrc. io_step.
  assert (Hw : forall s0 : state,
             match written with
             | Some bytes => emit (ClientWrite bytes)
             | None => ret tt
             end s0
             = Some (tt, {| client_in := client_in s0; client_wr := client_wr s0;
                            origin_in := origin_in s0;
                            trace := trace s0 ++ written_events written |})).
  { intros s0. destruct written; cbn [written_events]; io_step;
      [reflexivity | rewrite app_nil_r; destruct s0; reflexivity]. }
  rewrite Hw. io_step.
  destruct (Z.gtb_spec n 0) as [Hgt|_]; [lia|].
  fold (request_line_of p). fold (built_host p).
  rewrite (store_fits _ _ Hrl), (store_fits _ _ Hbh).
  erewrite (build_http_request_spec E _ hs tail);
    [ | reflexivity | exact Hl | exact Hp | exact Hend | exact Hfit ].
  io_step.
  destruct (Z.ltb_spec (open_clientfd E (host p) (port p)) 0) as [_|Hge]; [|lia].
  io_step. repeat rewrite <- app_assoc. reflexivity.
Qed.

Lemma connect_failure_leaves_client_without_answer_witness :
  thread (unreachable_env (fun _ => REQUEST sample_request))
         (connection [sample_line; "Host: example.com" ++ CRLF; CRLF] [])
  = Some (tt, {| client_in := []; client_wr := []; origin_in := [];
                 trace := [CacheLookup "example.com:80/";
                           OriginConnect "example.com" "80";
                           Stderr ("Connection failed" ++ NL);
                           CloseClient] |}).
Proof.
  apply (connect_failure_leaves_client_without_answer
           (unreachable_env (fun _ => REQUEST sample_request))
           (connection [sample_line; "Host: example.com" ++ CRLF; CRLF] [])
           sample_line sample_request ["Host: example.com" ++ CRLF]
           [RioData CRLF] None).
  - sample_built.
  - by_computation.
Defined.

(** X2: when a read from the origin fails in mid-transfer, the relay
    loop ends as at end of file: what was received so far, if below
    [MAX_OBJECT_SIZE], is inserted into the cache under the URI as if it
    were the whole response. *)
Theorem truncated_response_is_cached
        (E : env) (s : state) (line : string) (p : parsed_request)
        (hs : list string) (tail : list rio_result) (written : option string)
        (chunks : list string) (more : list rio_result) :
  cache_miss E s line p hs tail written chunks (RioError :: more) ->
  strlen (join chunks) < MAX_OBJECT_SIZE E ->
  thread E s
  = Some (tt, {| client_in := tl tail;
                 client_wr := skipn (List.length chunks) (client_wr s);
                 origin_in := more;
                 trace := trace s
                          ++ CacheLookup (uri p) :: written_events written
                          ++ [OriginConnect (host p) (port p);
                              OriginWrite (forwarded_request E p hs)]
                          ++ relay_events chunks
                          ++ [CacheInsert (uri p) (join chunks) (strlen (join chunks));
                              CloseOrigin; CloseClient] |}).
Proof.
  intros Hmiss Hlt.
  rewrite (thread_cache_miss E s line p hs tail written chunks _ Hmiss).
  unfold insert_events. apply Z.ltb_lt in Hlt. rewrite Hlt. reflexivity.
Qed.

Lemma truncated_response_is_cached_witness :
  thread (sample_env (fun _ => REQUEST sample_request) empty_cache)
         {| client_in := map RioData [sample_line; CRLF]; client_wr := [];
            origin_in := [RioData ("HTTP/1.0 200 OK" ++ CRLF); RioError;
                          RioData "never read"];
            trace := [] |}
  = Some (tt, {| client_in := []; client_wr := [];
                 origin_in := [RioData "never read"];
                 trace := [CacheLookup "example.com:80/";
                           OriginConnect "example.com" "80";
                           OriginWrite
                             (forwarded_request
                                (sample_env (fun _ => REQUEST sample_request)
                                            empty_cache)
                                sample_request []);
                           OriginRead ("HTTP/1.0 200 OK" ++ CRLF);
                           ClientWrite ("HTTP/1.0 200 OK" ++ CRLF);
                           CacheInsert "example.com:80/" ("HTTP/1.0 200 OK" ++ CRLF) 17;
                           CloseOrigin; CloseClient] |}).
Proof.
  apply (truncated_response_is_cached
           (sample_env (fun _ => REQUEST sample_request) empty_cache)
           {| client_in := map RioData [sample_line; CRLF]; client_wr := [];
              origin_in := [RioData ("HTTP/1.0 200 OK" ++ CRLF); RioError;
                            RioData "never read"];
              trace := [] |}
           sample_line sample_request [] [RioData CRLF] None
           ["HTTP/1.0 200 OK" ++ CRLF] [RioData "never read"]).
  - sample_miss.
  - by_computation.
Defined.

(** X3: an origin that closes without sending a byte is a cacheable
    response for [doit]: [write_cache] is called with the URI and a size
    of 0. *)
Theorem empty_response_is_cached
        (E : env) (s : state) (line : string) (p : parsed_request)
        (hs : list string) (tail : list rio_result) (written : option string)
        (otail : list rio_result) :
  cache_miss E s line p hs tail written [] otail ->
  0 < MAX_OBJECT_SIZE E ->
  thread E s
  = Some (tt, {| client_in := tl tail; client_wr := client_wr s;
                 origin_in := tl otail;
                 trace := trace s
                          ++ CacheLookup (uri p) :: written_events written
                          ++ [OriginConnect (host p) (port p);
                              OriginWrite (forwarded_request E p hs);
                              CacheInsert (uri p) EmptyString 0;
                              CloseOrigin; CloseClient] |}).
Proof.
  intros Hmiss Hpos.
  rewrite (thread_cache_miss E s line p hs tail written [] otail Hmiss).
  unfold insert_events. cbn [join fold_right strlen relay_events flat_map app].
  apply Z.ltb_lt in Hpos. rewrite Hpos. reflexivity.
Qed.

Lemma empty_response_is_cached_witness :
  thread (sample_env (fun _ => REQUEST sample_request) empty_cache)
         (connection [sample_line; CRLF] [])
  = Some (tt, {| client_in := []; client_wr := []; origin_in := [];
                 trace := [CacheLookup "example.com:80/";
                           OriginConnect "example.com" "80";
                           OriginWrite
                             (forwarded_request
                                (sample_env (fun _ => REQUEST sample_request)
                                            empty_cache)
                                sample_request []);
                           CacheInsert "example.com:80/" EmptyString 0;
                           CloseOrigin; CloseClient] |}).
Proof.
  apply (empty_response_is_cached
           (sample_env (fun _ => REQUEST sample_request) empty_cache)
           (connection [sample_line; CRLF] [])
           sample_line sample_request [] [RioData CRLF] None []).
  - sample_miss.
  - by_computation.
Defined.

(** X4: the relay loop never looks at the result of its writes to the
    client: with any other results, failures included, the run records
    the same events, reads the origin to the same point and makes the
    same [write_cache] call. *)
Theorem relay_ignores_client_write_results
        (E : env) (s : state) (line : string) (p : parsed_request)
        (hs : list string) (tail : list rio_result) (written : option string)
        (chunks : list string) (otail : list rio_result) (wr : list Z) :
  cache_miss E s line p hs tail written chunks otail ->
  exists s1 s2,
    thread E s = Some (tt, s1)
    /\ thread E (with_client_wr wr s) = Some (tt, s2)
    /\ trace s2 = trace s1
    /\ client_in s2 = client_in s1
    /\ origin_in s2 = origin_in s1
    /\ In (OriginWrite (forwarded_request E p hs)) (trace s1)
    /\ (forall c, In c chunks -> In (ClientWrite c) (trace s1)).
Proof.
  intros Hmiss.
  assert (Hmiss' : cache_miss E (with_client_wr wr s) line p hs tail written
                     chunks otail).
  { destruct Hmiss. split; assumption. }
  eexists _, _. split; [|split; [|split; [|split; [|split; [|split]]]]].
  - exact (thread_cache_miss E s line p hs tail written chunks otail Hmiss).
  - exact (thread_cache_miss E _ line p hs tail written chunks otail Hmiss').
  - reflexivity.
  - reflexivity.
  - reflexivity.
  - cbn [trace]. apply in_or_app. right. right. apply in_or_app. right.
    right. left. reflexivity.
  - intros c Hc. cbn [trace]. apply in_or_app. right. right.
    apply in_or_app. right. cbn [app]. right. right. apply in_or_app. left.
    unfold relay_events. apply in_flat_map. exists c. split; [exact Hc|].
    right. left. reflexivity.
Qed.

(** Every write to the client fails, and the response is still read to
    its end and cached. *)
Lemma relay_ignores_client_write_results_witness :
  exists s2,
    thread (sample_env (fun _ => REQUEST sample_request) empty_cache)
           (with_client_wr [-1; -1; -1]
              (connection [sample_line; "Host: example.com" ++ CRLF; CRLF]
                          sample_response))
    = Some (tt, s2)
    /\ trace s2 = scenario_a_trace.
Proof.
  destruct (relay_ignores_client_write_results
              (sample_env (fun _ => REQUEST sample_request) empty_cache)
              (connection [sample_line; "Host: example.com" ++ CRLF; CRLF]
                          sample_response)
              sample_line sample_request ["Host: example.com" ++ CRLF]
              [RioData CRLF] None sample_response [] [-1; -1; -1])
    as (s1 & s2 & H1 & H2 & Ht & _).
  - sample_miss.
  - exists s2. split; [exact H2|]. rewrite Ht.
    assert (Hs : Some (tt, s1)
                 = Some (tt, {| client_in := []; client_wr := []; origin_in := [];
                                trace := scenario_a_trace |})).
    { rewrite <- H1. vm_compute. reflexivity. }
    injection Hs as ->. reflexivity.
Defined.

(** ** The relay loop and the [response] array *)

Lemma relay_loop_stored (E : env) (chunks : list string) (tail : list rio_result) :
  forall (response : string) (size : Z) (s : state),
  Forall (fun c => 0 < strlen c) chunks ->
  read_end tail ->
  exists stored dropped s',
    chunks = (stored ++ dropped)%list
    /\ relay_loop E (map RioData chunks ++ tail) response size s
       = Some ((tl tail, response ++ join stored, size + strlen (join chunks)), s')
    /\ (stored = [] \/ size + strlen (join stored) < MAX_OBJECT_SIZE E)
    /\ (dropped = []
        \/ MAX_OBJECT_SIZE E
           <= size + strlen (join stored) + strlen (hd EmptyString dropped)).
Proof.
  induction chunks as [|c chunks IH]; intros response size s Hpos Hend.
  - exists [], [], s. cbn [map app join fold_right strlen].
    rewrite (relay_loop_end E _ _ _ _ Hend), append_nil_r, Z.add_0_r.
    repeat split; auto.
  - inversion Hpos as [|? ? Hc Hpos']; subst.
    cbn [map app relay_loop].
    pose proof Hc as Hc'. apply Z.gtb_lt in Hc'. rewrite Hc'.
    io_step. rewrite rio_writen_client_eq. io_step.
    cbn [join fold_right]. fold (join chunks).
    rewrite strlen_app, Z.add_assoc.
    destruct (Z.ltb_spec (size + strlen c) (MAX_OBJECT_SIZE E)) as [Hlt|Hge].
    + destruct (IH (response ++ c) (size + strlen c)
                  {| client_in := client_in s; client_wr := tl (client_wr s);
                     origin_in := origin_in s;
                     trace := (trace s ++ [OriginRead c]) ++ [ClientWrite c] |}
                  Hpos' Hend)
        as (stored & dropped & s' & Hsplit & Hrun & Hst & Hdr).
      exists (c :: stored), dropped, s'.
      cbn [join fold_right app]. fold (join stored).
      rewrite strlen_app, <- append_assoc, Hrun, Hsplit.
      repeat split.
      * right. destruct Hst as [-> | Hst]; cbn [join fold_right strlen] in *; lia.
      * destruct Hdr as [Hdr | Hdr]; [left; exact Hdr | right; lia].
    + destruct (IH response (size + strlen c)
                  {| client_in := client_in s; client_wr := tl (client_wr s);
                     origin_in := origin_in s;
                     trace := (trace s ++ [OriginRead c]) ++ [ClientWrite c] |}
                  Hpos' Hend)
        as (stored & dropped & s' & Hsplit & Hrun & Hst & Hdr).
      pose proof (strlen_nonneg (join stored)) as Hj.
      destruct Hst as [-> | Hst]; [|lia].
      cbn [app] in Hsplit. subst dropped.
      exists [], (c :: chunks), s'.
      rewrite Hrun. cbn [join fold_right strlen hd app].
      repeat split; auto. right. lia.
Qed.

(** X5: what the relay loop copies into [response] is a prefix of the
    origin's response made of whole chunks; it is empty or shorter than
    [MAX_OBJECT_SIZE], so [memcpy] stays inside the array, and copying
    stops for good at the first chunk that takes the running total to
    [MAX_OBJECT_SIZE], while the size returned counts every byte. *)
Theorem relay_copy_stays_below_cap
        (E : env) (s : state) (chunks : list string) (tail : list rio_result) :
  origin_in s = (map RioData chunks ++ tail)%list ->
  Forall (fun c => 0 < strlen c) chunks ->
  read_end tail ->
  exists stored dropped s',
    chunks = (stored ++ dropped)%list
    /\ relay E s = Some ((join stored, strlen (join chunks)), s')
    /\ (stored = [] \/ strlen (join stored) < MAX_OBJECT_SIZE E)
    /\ (dropped = []
        \/ MAX_OBJECT_SIZE E
           <= strlen (join stored) + strlen (hd EmptyString dropped)).
Proof.
  intros Hin Hpos Hend. unfold relay. rewrite Hin.
  destruct (relay_loop_stored E chunks tail EmptyString 0 s Hpos Hend)
    as (stored & dropped & s' & Hsplit & Hrun & Hst & Hdr).
  rewrite Hrun. cbn [String.append Z.add] in *.
  eexists stored, dropped, _. repeat split; assumption.
Qed.

(** Of 13 full chunks the first 12, 98304 bytes, are copied; the size
    returned is 106496. *)
Lemma relay_copy_stays_below_cap_witness :
  exists stored dropped s',
    oversized_response = (stored ++ dropped)%list
    /\ relay (sample_env (fun _ => ERROR) empty_cache)
             (connection [] oversized_response)
       = Some ((join stored, strlen (join oversized_response)), s')
    /\ (stored = [] \/ strlen (join stored) < 102400)
    /\ (dropped = []
        \/ 102400 <= strlen (join stored) + strlen (hd EmptyString dropped)).
Proof.
  apply (relay_copy_stays_below_cap
           (sample_env (fun _ => ERROR) empty_cache)
           (connection [] oversized_response) oversized_response []).
  - vm_compute. reflexivity.
  - repeat constructor; by_computation.
  - exact I.
Defined.

(** ** [build_http_request]: the arrays and the format *)

Lemma format_noargs_cons (c : ascii) (r : string) :
  format_noargs (String c r)
  = if Ascii.eqb c "%"%char then
      match r with
      | String c' r' =>
          if Ascii.eqb c' "%"%char
          then option_map (String "%"%char) (format_noargs r')
          else None
      | EmptyString => None
      end
    else option_map (String c) (format_noargs r).
Proof. reflexivity. Qed.

Lemma format_noargs_shorter (h : string) :
  (forall t, format_noargs h = Some t -> strlen t <= strlen h)
  /\ (forall c t, format_noargs (String c h) = Some t ->
                  strlen t <= strlen (String c h)).
Proof.
  induction h as [|a h [IH1 IH2]].
  - split.
    + intros t H. injection H as <-. cbn [strlen]. lia.
    + intros c t. rewrite format_noargs_cons.
      destruct (Ascii.eqb c "%"); [discriminate|].
      cbn [format_noargs option_map]. intros H. injection H as <-.
      cbn [strlen]. lia.
  - split; [exact (IH2 a)|].
    intros c t. rewrite format_noargs_cons. destruct (Ascii.eqb c "%").
    + cbv beta iota. destruct (Ascii.eqb a "%"); [|discriminate].
      destruct (format_noargs h) as [t'|] eqn:Hf; [|discriminate].
      cbn [option_map]. intros H. injection H as <-.
      specialize (IH1 t' eq_refl). cbn [strlen]. lia.
    + destruct (format_noargs (String a h)) as [t'|] eqn:Hf; [|discriminate].
      cbn [option_map]. intros H. injection H as <-.
      specialize (IH2 a t' Hf). cbn [strlen] in *. lia.
Qed.

Lemma header_loop_step (E : env) (h : string) (rest : list rio_result)
      (header_host other_header : string) :
  header_line E h ->
  header_loop E (RioData h :: rest) header_host other_header
  = if begins_with "Host" h then
      match format_noargs h with
      | Some text =>
          match store (MAXLINE E) text with
          | Some header_host' => header_loop E rest header_host' other_header
          | None => None
          end
      | None => None
      end
    else if negb (reserved h) then
      match store (MAXLINE E) (other_header ++ h) with
      | Some other_header' => header_loop E rest header_host other_header'
      | None => None
      end
    else header_loop E rest header_host other_header.
Proof.
  intros (Hpos & Hne & _ & Hnf). cbn [header_loop].
  apply Z.gtb_lt in Hpos. rewrite Hpos. cbv zeta. rewrite Hnf.
  rewrite strcmp_CRLF. apply String.eqb_neq in Hne. rewrite Hne.
  now rewrite strncasecmp_begins, reserved_test.
Qed.

Lemma printed_host_cons (built h : string) (hs : list string) :
  printed_host built (h :: hs)
  = if begins_with "Host" h then printed_host (printed h) hs
    else printed_host built hs.
Proof.
  unfold printed_host. cbn [filter].
  destruct (begins_with "Host" h); [|reflexivity].
  cbn [map]. apply last_cons_default.
Qed.

Lemma forwarded_cons (h : string) (hs : list string) :
  forwarded (h :: hs)
  = if negb (begins_with "Host" h) && negb (reserved h)
    then h :: forwarded hs else forwarded hs.
Proof. reflexivity. Qed.

(** The header lines [before], each within defined behaviour, take the
    loop to the rest of the script. *)
Lemma header_loop_prefix (E : env) (before : list string) (rest : list rio_result) :
  forall header_host other_header : string,
  Forall (header_line E) before ->
  Forall (fun h => begins_with "Host" h = true -> format_noargs h <> None) before ->
  strlen (other_header ++ join (forwarded before)) < MAXLINE E ->
  header_loop E (map RioData before ++ rest) header_host other_header
  = header_loop E rest (printed_host header_host before)
      (other_header ++ join (forwarded before)).
Proof.
  induction before as [|h hs IH]; intros hh oh Hl Hp Hfit.
  - cbn [map app forwarded filter join fold_right]. now rewrite append_nil_r.
  - inversion Hl as [|? ? Hh Hl']; subst. inversion Hp as [|? ? Hp0 Hp']; subst.
    cbn [map app]. rewrite (header_loop_step E h _ hh oh Hh).
    rewrite printed_host_cons, forwarded_cons in *.
    destruct (begins_with "Host" h) eqn:Hhost; cbn [negb andb] in *.
    + unfold printed. destruct (format_noargs h) as [t|] eqn:Hf;
        [|now destruct (Hp0 eq_refl)].
      destruct Hh as (_ & _ & Hlen).
      pose proof (proj1 (format_noargs_shorter h) t Hf) as Hsh.
      rewrite store_fits by lia. now apply IH.
    + destruct (reserved h); cbn [negb] in *; [now apply IH|].
      cbn [join fold_right] in *. fold (join (forwarded hs)) in *.
      rewrite <- append_assoc in Hfit.
      pose proof (strlen_nonneg (join (forwarded hs))) as Hj.
      rewrite store_fits by (rewrite strlen_app in Hfit; lia).
      rewrite <- append_assoc. now apply IH.
Qed.

(** Without any assumption on sizes the loop either runs into undefined
    behaviour or ends with the printed Host line and all forwarded
    lines. *)
Lemma header_loop_outcome (E : env) (hs : list string) (tail : list rio_result) :
  forall header_host other_header : string,
  Forall (header_line E) hs ->
  Forall (fun h => begins_with "Host" h = true -> format_noargs h <> None) hs ->
  header_end tail ->
  header_loop E (map RioData hs ++ tail) header_host other_header = None
  \/ header_loop E (map RioData hs ++ tail) header_host other_header
     = Some (tl tail, printed_host header_host hs,
             other_header ++ join (forwarded hs)).
Proof.
  induction hs as [|h hs IH]; intros hh oh Hl Hp Hend.
  - right. cbn [map app forwarded filter join fold_right].
    rewrite append_nil_r. now apply header_loop_end.
  - inversion Hl as [|? ? Hh Hl']; subst. inversion Hp as [|? ? Hp0 Hp']; subst.
    cbn [map app]. rewrite (header_loop_step E h _ hh oh Hh).
    rewrite printed_host_cons, forwarded_cons.
    destruct (begins_with "Host" h) eqn:Hhost; cbn [negb andb].
    + unfold printed. destruct (format_noargs h) as [t|] eqn:Hf;
        [|now destruct (Hp0 eq_refl)].
      destruct (store (MAXLINE E) t) as [t'|] eqn:Hs; [|now left].
      unfold store in Hs. destruct (strlen t <? MAXLINE E); [|discriminate].
      injection Hs as <-. now apply IH.
    + destruct (reserved h); cbn [negb]; [now apply IH|].
      destruct (store (MAXLINE E) (oh ++ h)) as [o|] eqn:Hs; [|now left].
      unfold store in Hs. destruct (strlen (oh ++ h) <? MAXLINE E); [|discriminate].
      injection Hs as <-.
      cbn [join fold_right]. fold (join (forwarded hs)).
      rewrite <- append_assoc. now apply IH.
Qed.

Lemma build_http_request_printed
      (E : env) (s : state) (hs : list string) (tail : list rio_result)
      (request_line header_host : string) :
  client_in s = (map RioData hs ++ tail)%list ->
  Forall (header_line E) hs ->
  Forall (fun h => begins_with "Host" h = true -> format_noargs h <> None) hs ->
  header_end tail ->
  strlen (request_text request_line (printed_host header_host hs)
            (c_str (stack_other_header E) :: forwarded hs)) < MAXLINE E ->
  build_http_request E request_line header_host s
  = Some (request_text request_line (printed_host header_host hs)
            (c_str (stack_other_header E) :: forwarded hs),
          {| client_in := tl tail; client_wr := client_wr s;
             origin_in := origin_in s; trace := trace s |}).
Proof.
  intros Hin Hl Hp Hend Hfit. unfold build_http_request.
  unfold request_text in *. cbn [join fold_right] in *.
  fold (join (forwarded hs)) in *.
  rewrite Hin, (header_loop_prefix E hs tail header_host _ Hl Hp).
  - rewrite (header_loop_end E tail _ _ Hend). now rewrite (store_fits _ _ Hfit).
  - rewrite !strlen_app in Hfit. rewrite strlen_app.
    pose proof (strlen_nonneg request_line).
    pose proof (strlen_nonneg (printed_host header_host hs)).
    pose proof (strlen_nonneg header_user_agent).
    pose proof (strlen_nonneg header_connection).
    pose proof (strlen_nonneg header_proxy_connection).
    pose proof (strlen_nonneg CRLF). lia.
Qed.

(** X6: [build_http_request] has no bound check of its own: the request
    is built exactly when its text, blank line included, is shorter than
    [MAXLINE]; a request of [MAXLINE] bytes or more is never truncated
    or refused, it is written past the end of [other_header] or of
    [http_request]. *)
Theorem request_overflow_is_undefined
        (E : env) (s : state) (hs : list string) (tail : list rio_result)
        (request_line header_host : string) :
  client_in s = (map RioData hs ++ tail)%list ->
  Forall (header_line E) hs ->
  Forall (fun h => begins_with "Host" h = true -> format_noargs h <> None) hs ->
  header_end tail ->
  (build_http_request E request_line header_host s = None
   <-> MAXLINE E
       <= strlen (request_text request_line (printed_host header_host hs)
                    (c_str (stack_other_header E) :: forwarded hs)))
  /\ (forall r, build_http_request E request_line header_host s = Some r ->
        fst r = request_text request_line (printed_host header_host hs)
                  (c_str (stack_other_header E) :: forwarded hs)
        /\ strlen (fst r) < MAXLINE E).
Proof.
  intros Hin Hl Hp Hend.
  pose proof (build_http_request_printed E s hs tail request_line header_host
                Hin Hl Hp Hend) as Hsome.
  assert (Hnone :
            MAXLINE E
            <= strlen (request_text request_line (printed_host header_host hs)
                         (c_str (stack_other_header E) :: forwarded hs)) ->
            build_http_request E request_line header_host s = None).
  { intros Hle. unfold build_http_request. rewrite Hin.
    destruct (header_loop_outcome E hs tail header_host (c_str (stack_other_header E))
                Hl Hp Hend) as [-> | ->]; [reflexivity|].
    unfold request_text in Hle. cbn [join fold_right] in Hle.
    fold (join (forwarded hs)) in Hle.
    unfold store.
    destruct (Z.ltb_spec
                (strlen (request_line ++ printed_host header_host hs
                         ++ header_user_agent ++ header_connection
                         ++ header_proxy_connection
                         ++ (c_str (stack_other_header E) ++ join (forwarded hs)) ++ CRLF))
                (MAXLINE E)) as [Hlt|_]; [lia | reflexivity]. }
  destruct (Z.le_gt_cases (MAXLINE E)
              (strlen (request_text request_line (printed_host header_host hs)
                         (c_str (stack_other_header E) :: forwarded hs))))
    as [Hle|Hlt].
  - split; [split; [intros _; exact Hle | exact Hnone]|].
    intros r Hr. rewrite (Hnone Hle) in Hr. discriminate Hr.
  - split.
    + split; [|exact Hnone]. intros H. rewrite (Hsome Hlt) in H. discriminate H.
    + intros r Hr. rewrite (Hsome Hlt) in Hr. injection Hr as <-.
      cbn [fst]. split; [reflexivity | exact Hlt].
Qed.

(** The request line, the built Host line, the fixed headers and the
    blank line take 170 bytes; one more header line of 8109 bytes does
    not fit [MAXLINE]. *)
Lemma request_overflow_is_undefined_witness :
  strlen long_header < 8192
  /\ build_http_request (sample_env (fun _ => REQUEST sample_request) empty_cache)
       (request_line_of sample_request) (built_host sample_request)
       (connection [long_header; CRLF] [])
     = None.
Proof.
  split; [by_computation|].
  refine (proj2 (proj1 (request_overflow_is_undefined
                          (sample_env (fun _ => REQUEST sample_request) empty_cache)
                          (connection [long_header; CRLF] [])
                          [long_header] [RioData CRLF]
                          (request_line_of sample_request)
                          (built_host sample_request) eq_refl _ _ _)) _).
  - repeat constructor; try by_computation.
    intros H. vm_compute in H. discriminate H.
  - repeat constructor. intros H. vm_compute in H. discriminate H.
  - left. reflexivity.
  - by_computation.
Defined.

Lemma format_noargs_conversion (a b : string) (c : ascii) :
  no_percent a = true ->
  c <> "%"%char ->
  format_noargs (a ++ String "%" (String c b)) = None.
Proof.
  intros Ha Hc. induction a as [|x a IH].
  - cbn [String.append]. rewrite format_noargs_cons. cbn [Ascii.eqb Bool.eqb].
    apply Ascii.eqb_neq in Hc. now rewrite Hc.
  - cbn [no_percent] in Ha. apply andb_true_iff in Ha. destruct Ha as [Hx Ha].
    cbn [String.append]. rewrite format_noargs_cons.
    apply negb_true_iff in Hx. rewrite Hx, (IH Ha). reflexivity.
Qed.

Lemma format_noargs_escape (a b : string) :
  no_percent a = true ->
  no_percent b = true ->
  format_noargs (a ++ "%%" ++ b) = Some (a ++ "%" ++ b).
Proof.
  intros Ha Hb. induction a as [|x a IH].
  - cbn [String.append]. rewrite format_noargs_cons. cbn [Ascii.eqb Bool.eqb].
    now rewrite (format_noargs_plain b Hb).
  - cbn [no_percent] in Ha. apply andb_true_iff in Ha. destruct Ha as [Hx Ha].
    cbn [String.append]. rewrite format_noargs_cons.
    apply negb_true_iff in Hx. rewrite Hx.
    change (format_noargs (a ++ String "%" (String "%" b)))
      with (format_noargs (a ++ "%%" ++ b)).
    now rewrite (IH Ha).
Qed.

Lemma printed_host_last (built : string) (before after : list string) (h : string) :
  begins_with "Host" h = true ->
  Forall (fun h' => begins_with "Host" h' = false) after ->
  printed_host built (before ++ h :: after) = printed h.
Proof.
  intros Hh Hafter. unfold printed_host.
  rewrite filter_app. cbn [filter]. rewrite Hh.
  replace (filter (begins_with "Host") after) with (@nil string).
  - rewrite map_app. cbn [map]. now rewrite last_last.
  - induction Hafter as [|a after Ha _ IH]; [reflexivity|].
    cbn [filter]. now rewrite Ha.
Qed.

(** X7: a client line beginning with Host is handed to [sprintf] as the
    format.  When it holds a [%] that starts a conversion (any byte but
    another [%] follows), [sprintf] reads an argument that was never
    passed: the behaviour of [build_http_request] is undefined, whatever
    the client sends after that line. *)
Theorem host_line_conversion_is_undefined
        (E : env) (s : state) (before : list string) (a b : string) (c : ascii)
        (rest : list rio_result) (request_line header_host : string) :
  client_in s
  = (map RioData before ++ RioData (a ++ String "%" (String c b)) :: rest)%list ->
  Forall (header_line E) before ->
  Forall (fun h => begins_with "Host" h = true -> format_noargs h <> None) before ->
  strlen (c_str (stack_other_header E) ++ join (forwarded before)) < MAXLINE E ->
  header_line E (a ++ String "%" (String c b)) ->
  begins_with "Host" (a ++ String "%" (String c b)) = true ->
  no_percent a = true ->
  c <> "%"%char ->
  build_http_request E request_line header_host s = None.
Proof.
  intros Hin Hl Hp Hfit Hh Hhost Ha Hc. unfold build_http_request.
  rewrite Hin, (header_loop_prefix E before _ header_host _ Hl Hp Hfit).
  rewrite (header_loop_step E _ rest _ _ Hh), Hhost.
  now rewrite (format_noargs_conversion a b c Ha Hc).
Qed.

Lemma host_line_conversion_is_undefined_witness :
  build_http_request (sample_env (fun _ => REQUEST sample_request) empty_cache)
    (request_line_of sample_request) (built_host sample_request)
    (connection ["Accept: */*" ++ CRLF; "Host: %s" ++ CRLF; CRLF] [])
  = None.
Proof.
  apply (host_line_conversion_is_undefined
           (sample_env (fun _ => REQUEST sample_request) empty_cache)
           (connection ["Accept: */*" ++ CRLF; "Host: %s" ++ CRLF; CRLF] [])
           ["Accept: */*" ++ CRLF] "Host: " CRLF "s"%char [RioData CRLF]
           (request_line_of sample_request) (built_host sample_request)).
  - reflexivity.
  - repeat constructor; try by_computation.
    intros H. vm_compute in H. discriminate H.
  - repeat constructor. intros H. vm_compute in H. discriminate H.
  - by_computation.
  - repeat split; try by_computation.
    intros H. vm_compute in H. discriminate H.
  - by_computation.
  - reflexivity.
  - discriminate.
Defined.

(** X8: a doubled [%] in the client's last line beginning with Host is
    an escape for [sprintf]: the Host line of the forwarded request has
    a single [%] in its place and is one byte shorter than the line the
    client sent. *)
Theorem host_line_percent_is_unescaped
        (E : env) (s : state) (before after : list string) (a b : string)
        (tail : list rio_result) (request_line header_host : string) :
  client_in s
  = (map RioData (before ++ (a ++ "%%" ++ b)%string :: after) ++ tail)%list ->
  Forall (header_line E) (before ++ (a ++ "%%" ++ b)%string :: after) ->
  Forall (fun h => begins_with "Host" h = true -> format_noargs h <> None)
         (before ++ (a ++ "%%" ++ b)%string :: after) ->
  header_end tail ->
  begins_with "Host" (a ++ "%%" ++ b) = true ->
  no_percent a = true ->
  no_percent b = true ->
  Forall (fun h => begins_with "Host" h = false) after ->
  strlen (request_text request_line (a ++ "%" ++ b)
            (c_str (stack_other_header E)
             :: forwarded (before ++ (a ++ "%%" ++ b)%string :: after))) < MAXLINE E ->
  build_http_request E request_line header_host s
  = Some (request_text request_line (a ++ "%" ++ b)
            (c_str (stack_other_header E)
             :: forwarded (before ++ (a ++ "%%" ++ b)%string :: after)),
          {| client_in := tl tail; client_wr := client_wr s;
             origin_in := origin_in s; trace := trace s |})
  /\ strlen (a ++ "%" ++ b) = strlen (a ++ "%%" ++ b) - 1.
Proof.
  intros Hin Hl Hp Hend Hhost Ha Hb Hafter Hfit.
  assert (Hprinted : printed_host header_host (before ++ (a ++ "%%" ++ b)%string :: after)
                     = a ++ "%" ++ b).
  { rewrite (printed_host_last _ _ _ _ Hhost Hafter). unfold printed.
    now rewrite (format_noargs_escape a b Ha Hb). }
  split.
  - rewrite <- Hprinted in Hfit |- * at 1.
    exact (build_http_request_printed E s _ tail request_line header_host
             Hin Hl Hp Hend Hfit).
  - rewrite !strlen_app. cbn [strlen]. lia.
Qed.

Lemma host_line_percent_is_unescaped_witness :
  build_http_request (sample_env (fun _ => REQUEST sample_request) empty_cache)
    (request_line_of sample_request) (built_host sample_request)
    (connection [("Host: a" ++ "%%" ++ "b" ++ CRLF)%string; CRLF] [])
  = Some (("GET / HTTP/1.0" ++ CRLF) ++ ("Host: a%b" ++ CRLF)
          ++ header_user_agent ++ header_connection ++ header_proxy_connection
          ++ CRLF,
          connection [] []).
Proof.
  apply (host_line_percent_is_unescaped
           (sample_env (fun _ => REQUEST sample_request) empty_cache)
           (connection [("Host: a" ++ "%%" ++ "b" ++ CRLF)%string; CRLF] [])
           [] [] "Host: a" ("b" ++ CRLF) [RioData CRLF]
           (request_line_of sample_request) (built_host sample_request)).
  - reflexivity.
  - repeat constructor; try by_computation.
    intros H. vm_compute in H. discriminate H.
  - repeat constructor. intros _ H. vm_compute in H. discriminate H.
  - left. reflexivity.
  - by_computation.
  - reflexivity.
  - reflexivity.
  - constructor.
  - by_computation.
Defined.

(** ** [clienterror]: writes that fail, and the length it announces *)

(** X9: when the write of the response headers fails, [clienterror]
    reports it on stderr and returns without attempting to write the
    body. *)
Theorem failed_header_write_skips_body
        (E : env) (cause errnum shortmsg longmsg : string) (s : state)
        (r : Z) (wr : list Z) :
  strlen (error_body cause errnum shortmsg longmsg) < MAXBUF E ->
  strlen (error_headers errnum shortmsg
            (strlen (error_body cause errnum shortmsg longmsg))) < MAXLINE E ->
  client_wr s = r :: wr ->
  r < 0 ->
  clienterror E cause errnum shortmsg longmsg s
  = Some (tt, {| client_in := client_in s; client_wr := wr;
                 origin_in := origin_in s;
                 trace := trace s
                          ++ [ClientWrite
                                (error_headers errnum shortmsg
                                   (strlen (error_body cause errnum shortmsg longmsg)));
                              Stderr ("Error writing error response headers to client"
                                      ++ NL)] |}).
Proof.
  intros Hb Hh Hwr Hr. unfold clienterror.
  rewrite (snprintf_fits _ _ Hb).
  destruct (Z.geb_spec (strlen (error_body cause errnum shortmsg longmsg)) (MAXBUF E));
    [lia|].
  rewrite (snprintf_fits _ _ Hh).
  destruct (Z.geb_spec
              (strlen (error_headers errnum shortmsg
                         (strlen (error_body cause errnum shortmsg longmsg))))
              (MAXLINE E)); [lia|].
  io_step. rewrite rio_writen_client_eq, Hwr. cbn [hd tl].
  destruct (Z.ltb_spec r 0); [|lia].
  io_step. now rewrite <- app_assoc.
Qed.

Lemma failed_header_write_skips_body_witness :
  clienterror (sample_env (fun _ => ERROR) empty_cache)
    ("GET /" ++ CRLF) "400" "Bad Request" "Tiny could not handle this request (ERROR)"
    (with_client_wr [-1] (connection [] []))
  = Some (tt, {| client_in := []; client_wr := []; origin_in := [];
                 trace := [ClientWrite
                             (error_headers "400" "Bad Request"
                                (strlen (error_body ("GET /" ++ CRLF) "400"
                                           "Bad Request"
                                           "Tiny could not handle this request (ERROR)")));
                           Stderr ("Error writing error response headers to client"
                                   ++ NL)] |}).
Proof.
  apply (failed_header_write_skips_body
           (sample_env (fun _ => ERROR) empty_cache)
           ("GET /" ++ CRLF) "400" "Bad Request"
           "Tiny could not handle this request (ERROR)"
           (with_client_wr [-1] (connection [] [])) (-1) []).
  - by_computation.
  - by_computation.
  - reflexivity.
  - by_computation.
Defined.

(** X10: when the headers were written and the write of the body fails,
    [clienterror] reports that on stderr; both writes were attempted, in
    this order, and nothing is retried. *)
Theorem failed_body_write_is_logged
        (E : env) (cause errnum shortmsg longmsg : string) (s : state)
        (r1 r2 : Z) (wr : list Z) :
  strlen (error_body cause errnum shortmsg longmsg) < MAXBUF E ->
  strlen (error_headers errnum shortmsg
            (strlen (error_body cause errnum shortmsg longmsg))) < MAXLINE E ->
  client_wr s = r1 :: r2 :: wr ->
  0 <= r1 ->
  r2 < 0 ->
  clienterror E cause errnum shortmsg longmsg s
  = Some (tt, {| client_in := client_in s; client_wr := wr;
                 origin_in := origin_in s;
                 trace := trace s
                          ++ [ClientWrite
                                (error_headers errnum shortmsg
                                   (strlen (error_body cause errnum shortmsg longmsg)));
                              ClientWrite (error_body cause errnum shortmsg longmsg);
                              Stderr ("Error writing error response body to client"
                                      ++ NL)] |}).
Proof.
  intros Hb Hh Hwr Hr1 Hr2. unfold clienterror.
  rewrite (snprintf_fits _ _ Hb).
  destruct (Z.geb_spec (strlen (error_body cause errnum shortmsg longmsg)) (MAXBUF E));
    [lia|].
  rewrite (snprintf_fits _ _ Hh).
  destruct (Z.geb_spec
              (strlen (error_headers errnum shortmsg
                         (strlen (error_body cause errnum shortmsg longmsg))))
              (MAXLINE E)); [lia|].
  io_step. rewrite rio_writen_client_eq, Hwr. cbn [hd tl].
  destruct (Z.ltb_spec r1 0); [lia|].
  io_step. rewrite rio_writen_client_eq. io_step. cbn [hd tl].
  destruct (Z.ltb_spec r2 0); [|lia].
  io_step. now rewrite <- !app_assoc.
Qed.

Lemma failed_body_write_is_logged_witness :
  clienterror (sample_env (fun _ => ERROR) empty_cache)
    ("GET /" ++ CRLF) "400" "Bad Request" "Tiny could not handle this request (ERROR)"
    (with_client_wr [71; -1] (connection [] []))
  = Some (tt, {| client_in := []; client_wr := []; origin_in := [];
                 trace := [ClientWrite
                             (error_headers "400" "Bad Request"
                                (strlen (error_body ("GET /" ++ CRLF) "400"
                                           "Bad Request"
                                           "Tiny could not handle this request (ERROR)")));
                           ClientWrite
                             (error_body ("GET /" ++ CRLF) "400" "Bad Request"
                                "Tiny could not handle this request (ERROR)");
                           Stderr ("Error writing error response body to client"
                                   ++ NL)] |}).
Proof.
  apply (failed_body_write_is_logged
           (sample_env (fun _ => ERROR) empty_cache)
           ("GET /" ++ CRLF) "400" "Bad Request"
           "Tiny could not handle this request (ERROR)"
           (with_client_wr [71; -1] (connection [] [])) 71 (-1) []).
  - by_computation.
  - by_computation.
  - reflexivity.
  - by_computation.
  - by_computation.
Defined.

Lemma zu_reads_back (n : Z) :
  0 <= n ->
  exists d, NilZero.uint_of_string (zu n) = Some d /\ Z.of_N (N.of_uint d) = n.
Proof.
  intros Hn. exists (N.to_uint (Z.to_N n)). split.
  - unfold zu. apply NilZero.usu.
    destruct (Z.to_N n) as [|q]; cbn [N.to_uint]; [discriminate|].
    apply DecimalPos.Unsigned.to_uint_nonnil.
  - rewrite DecimalN.Unsigned.of_to. now apply Z2N.id.
Qed.

(** X11: an error response that is sent announces its body exactly: the
    headers end in a Content-Length line whose decimal digits read back
    as the number of bytes of the body written after them. *)
Theorem error_response_content_length
        (E : env) (cause errnum shortmsg longmsg : string) (s : state) :
  strlen (error_body cause errnum shortmsg longmsg) < MAXBUF E ->
  strlen (error_headers errnum shortmsg
            (strlen (error_body cause errnum shortmsg longmsg))) < MAXLINE E ->
  Forall (fun r => 0 <= r) (client_wr s) ->
  exists digits d body s',
    clienterror E cause errnum shortmsg longmsg s = Some (tt, s')
    /\ trace s'
       = (trace s
          ++ [ClientWrite
                ("HTTP/1.0 " ++ errnum ++ " " ++ shortmsg ++ CRLF
                 ++ "Content-Type: text/html" ++ CRLF
                 ++ "Content-Length: " ++ digits ++ CRLF ++ CRLF);
              ClientWrite body])%list
    /\ NilZero.uint_of_string digits = Some d
    /\ Z.of_N (N.of_uint d) = strlen body.
Proof.
  intros Hb Hh Hw.
  destruct (zu_reads_back (strlen (error_body cause errnum shortmsg longmsg))
              (strlen_nonneg _)) as (d & Hd & Hval).
  exists (zu (strlen (error_body cause errnum shortmsg longmsg))), d,
    (error_body cause errnum shortmsg longmsg).
  eexists. split; [exact (clienterror_fits E cause errnum shortmsg longmsg s Hb Hh Hw)|].
  split; [reflexivity | split; assumption].
Qed.

Lemma error_response_content_length_witness :
  exists digits d body s',
    clienterror (sample_env (fun _ => ERROR) empty_cache)
      ("GET /" ++ CRLF) "400" "Bad Request" "Tiny could not handle this request (ERROR)"
      (connection [] [])
    = Some (tt, s')
    /\ trace s'
       = [ClientWrite
            ("HTTP/1.0 " ++ "400" ++ " " ++ "Bad Request" ++ CRLF
             ++ "Content-Type: text/html" ++ CRLF
             ++ "Content-Length: " ++ digits ++ CRLF ++ CRLF);
          ClientWrite body]
    /\ NilZero.uint_of_string digits = Some d
    /\ Z.of_N (N.of_uint d) = strlen body.
Proof.
  apply (error_response_content_length
           (sample_env (fun _ => ERROR) empty_cache)
           ("GET /" ++ CRLF) "400" "Bad Request"
           "Tiny could not handle this request (ERROR)" (connection [] [])).
  - by_computation.
  - by_computation.
  - constructor.
Defined.

(** ** [doit]: a client that sends nothing *)

(** X12: [doit] does not look at what its first [rio_readlineb] returns.
    When the client closes the connection, or the read fails, before any
    line arrived, the handler goes on with whatever the array [buf]
    held: it behaves exactly as if the client had sent those bytes as
    its request line. *)
Theorem missing_request_line_reads_old_buffer (E : env) (s : state) :
  no_request_line s ->
  thread E s
  = thread E {| client_in := RioData (stack_buf E) :: tl (client_in s);
                client_wr := client_wr s; origin_in := origin_in s;
                trace := trace s |}.
Proof.
  unfold no_request_line, thread, doit, bind, rio_readlineb.
  destruct s as [cin cwr oin tr]. cbn [client_in client_wr origin_in trace].
  destruct cin as [|[b| |] rest]; cbn [tl]; intros H;
    [reflexivity | contradiction | reflexivity | reflexivity].
Qed.

(** The client connects and closes at once; the error page quotes what
    was left in [buf]. *)
Lemma missing_request_line_reads_old_buffer_witness :
  thread (leftover_env "Cookie: session=1234") (connection [] [])
  = Some (tt, {| client_in := []; client_wr := []; origin_in := [];
                 trace := [ClientWrite
                             (error_headers "400" "Bad Request"
                                (strlen (error_body "Cookie: session=1234" "400"
                                           "Bad Request"
                                           "Tiny could not handle this request (ERROR)")));
                           ClientWrite
                             (error_body "Cookie: session=1234" "400" "Bad Request"
                                "Tiny could not handle this request (ERROR)");
                           CloseClient] |}).
Proof.
  rewrite (missing_request_line_reads_old_buffer
             (leftover_env "Cookie: session=1234") (connection [] []) I).
  vm_compute. reflexivity.
Defined.

(** ** [main]: start-up and the threads it creates *)

Ltac no_such_event H :=
  repeat (destruct H as [H|H]; [discriminate H|]); try contradiction.

Lemma accept_loop_keeps_cache (script : list accepted) :
  snd (accept_loop script) = Serving
  /\ ~ In FreeCache (fst (accept_loop script)).
Proof.
  induction script as [|a script [IH1 IH2]]; [split; [reflexivity | intros []]|].
  cbn [accept_loop]. unfold accept_iteration.
  destruct (accept_loop script) as [evs r]. cbn [fst snd] in *.
  destruct (connfd a <? 0); cbn [fst snd app]; split; try assumption;
    intros H; repeat (destruct H as [H|H]; [discriminate H|]); contradiction.
Qed.

(** X13: [main] leaves only at start-up, with status 1: when it was not
    given exactly one argument, before anything else is done, or when
    the listening socket cannot be opened, before any [accept].
    Otherwise it is in the accept loop for good: it never returns 0 and
    [free_cache] is never called. *)
Theorem main_exits_only_at_startup
        (argv : list string) (listenfd : Z) (script : list accepted) :
  (snd (main argv listenfd script) = Exit 1
   <-> List.length argv <> 2%nat \/ listenfd < 0)
  /\ (snd (main argv listenfd script) = Serving
      <-> List.length argv = 2%nat /\ 0 <= listenfd)
  /\ snd (main argv listenfd script) <> Exit 0
  /\ ~ In FreeCache (fst (main argv listenfd script))
  /\ (List.length argv <> 2%nat ->
      fst (main argv listenfd script)
      = [MainStderr ("usage: " ++ nth 0 argv EmptyString ++ " <port>" ++ NL)])
  /\ (In Accept (fst (main argv listenfd script)) ->
      List.length argv = 2%nat /\ 0 <= listenfd).
Proof.
  destruct (accept_loop_keeps_cache script) as [Hserv Hfree].
  assert (Hbad : List.length argv <> 2%nat ->
                 main argv listenfd script
                 = ([MainStderr ("usage: " ++ nth 0 argv EmptyString
                                 ++ " <port>" ++ NL)], Exit 1)).
  { destruct argv as [|a0 [|a1 [|a2 argv]]]; cbn [List.length]; intros H;
      try reflexivity. now destruct H. }
  destruct (Nat.eq_dec (List.length argv) 2) as [Hlen|Hlen].
  - destruct argv as [|a0 [|a1 [|a2 argv]]]; try discriminate Hlen.
    cbn [main List.length].
    destruct (Z.ltb_spec listenfd 0) as [Hneg|Hpos]; cbn [fst snd].
    + split; [split; [intros _; right; exact Hneg | reflexivity]|].
      split; [split; [discriminate | intros [_ H]; lia]|].
      split; [discriminate|].
      split; [intros H; no_such_event H|].
      split; [intros H; now destruct H|].
      intros H; no_such_event H.
    + destruct (accept_loop script) as [evs r]. cbn [fst snd] in *. subst r.
      split; [split; [discriminate | intros [H|H]; [now destruct H | lia]]|].
      split; [split; [intros _; split; [reflexivity | exact Hpos] | reflexivity]|].
      split; [discriminate|].
      split; [intros [H|[H|H]]; [discriminate H | discriminate H | now apply Hfree]|].
      split; [intros H; now destruct H|].
      intros _. split; [reflexivity | exact Hpos].
  - rewrite (Hbad Hlen). cbn [fst snd].
    split; [split; [intros _; left; exact Hlen | reflexivity]|].
    split; [split; [discriminate | intros [H _]; contradiction]|].
    split; [discriminate|].
    split; [intros H; no_such_event H|].
    split; [reflexivity|].
    intros H; no_such_event H.
Qed.

Lemma threads_of_app (a b : list main_event) :
  threads_of (a ++ b) = (threads_of a ++ threads_of b)%list.
Proof.
  induction a as [|e a IH]; [reflexivity|].
  destruct e; cbn [app threads_of]; rewrite IH; reflexivity.
Qed.

Lemma accept_loop_threads (script : list accepted) :
  threads_of (fst (accept_loop script))
  = filter (fun fd => 0 <=? fd) (map connfd script).
Proof.
  induction script as [|a script IH]; [reflexivity|].
  cbn [accept_loop map filter]. unfold accept_iteration.
  destruct (accept_loop script) as [evs r]. cbn [fst] in IH.
  destruct (Z.ltb_spec (connfd a) 0) as [Hneg|Hpos]; cbn [fst app threads_of].
  - destruct (Z.leb_spec 0 (connfd a)); [lia | exact IH].
  - destruct (Z.leb_spec 0 (connfd a)); [now rewrite IH | lia].
Qed.

(** X14: once listening, [main] creates one thread for every [accept]
    that succeeded and none for one that failed, in the order of the
    connections, each with the descriptor [accept] returned. *)
Theorem one_thread_per_accepted_connection
        (prog port_arg : string) (listenfd : Z) (script : list accepted) :
  0 <= listenfd ->
  threads_of (fst (main [prog; port_arg] listenfd script))
  = filter (fun fd => 0 <=? fd) (map connfd script).
Proof.
  intros Hl. unfold main.
  destruct (Z.ltb_spec listenfd 0) as [Hneg|_]; [lia|].
  pose proof (accept_loop_threads script) as H.
  destruct (accept_loop script) as [evs r]. exact H.
Qed.

Lemma one_thread_per_accepted_connection_witness :
  threads_of
    (fst (main ["proxy"; "8080"] 3
            [ {| connfd := 4; peer_host := "localhost"; peer_port := "40000" |};
              {| connfd := -1; peer_host := EmptyString; peer_port := EmptyString |};
              {| connfd := 5; peer_host := "localhost"; peer_port := "40001" |} ]))
  = [4; 5].
Proof.
  apply (one_thread_per_accepted_connection "proxy" "8080" 3
           [ {| connfd := 4; peer_host := "localhost"; peer_port := "40000" |};
             {| connfd := -1; peer_host := EmptyString; peer_port := EmptyString |};
             {| connfd := 5; peer_host := "localhost"; peer_port := "40001" |} ]).
  by_computation.
Defined.

(** ** [build_http_request]: the array that is never cleared *)

(** X15: [other_header] is appended to without ever being initialised:
    whatever C string the array holds when [build_http_request] is
    entered is sent to the origin, after the fixed headers and ahead of
    the client's forwarded lines. *)
Theorem stale_other_header_is_forwarded
        (E : env) (s : state) (line : string) (p : parsed_request)
        (hs : list string) (tail : list rio_result) (written : option string)
        (chunks : list string) (otail : list rio_result) :
  cache_miss E s line p hs tail written chunks otail ->
  exists s',
    thread E s = Some (tt, s')
    /\ In (OriginWrite
             (("GET " ++ path p ++ " HTTP/1.0" ++ CRLF)
              ++ host_header ("Host: " ++ host p ++ ":" ++ port p ++ CRLF) hs
              ++ header_user_agent ++ header_connection ++ header_proxy_connection
              ++ (c_str (stack_other_header E) ++ join (forwarded hs)) ++ CRLF))
          (trace s').
Proof.
  intros Hmiss. eexists. split.
  - exact (thread_cache_miss E s line p hs tail written chunks otail Hmiss).
  - cbn [trace]. apply in_or_app. right. right. apply in_or_app. right.
    right. left. reflexivity.
Qed.

Lemma stale_other_header_is_forwarded_witness :
  exists s',
    thread (dirty_env ("Cookie: session=1234" ++ CRLF))
           (connection [sample_line; "Accept: */*" ++ CRLF; CRLF] sample_response)
    = Some (tt, s')
    /\ In (OriginWrite
             (("GET / HTTP/1.0" ++ CRLF) ++ ("Host: example.com:80" ++ CRLF)
              ++ header_user_agent ++ header_connection ++ header_proxy_connection
              ++ ("Cookie: session=1234" ++ CRLF) ++ ("Accept: */*" ++ CRLF)
              ++ CRLF))
          (trace s').
Proof.
  destruct (stale_other_header_is_forwarded
              (dirty_env ("Cookie: session=1234" ++ CRLF))
              (connection [sample_line; "Accept: */*" ++ CRLF; CRLF] sample_response)
              sample_line sample_request ["Accept: */*" ++ CRLF] [RioData CRLF]
              None sample_response [])
    as (s' & Hrun & Hin).
  - sample_miss.
  - exists s'. split; [exact Hrun | exact Hin].
Defined.
